(** * llm-phoenix-app/main.py: the haiku pipeline

    A shallow embedding of [main.py]: the environment loader, the tracer
    configuration, the vector-store initialiser, generation, embedding,
    storage, similarity search and the entry point.

    The script is straight-line Python that talks to three services through
    their SDKs.  Its functions are embedded as computations in a state and
    exception monad over a [world]: the process environment, the vector
    store, the list of requests sent to the services, the log, the trace
    spans and standard output.  What the services answer is not decided by
    the script; it is read from the [services] component of the world. *)

From Stdlib Require Import PrimFloat.
From stdpp Require Import gmap strings list fin_maps pretty.

Open Scope string_scope.
Open Scope list_scope.

(** ** Python values used by the script *)

(** The exceptions the script can see.  [ServiceError] stands for whatever an
    SDK raises (connection refused, rejected request, ...). *)
Inductive exn :=
| ValueError (msg : string)
| KeyError (key : string)
| IndexError (msg : string)
| TypeError (msg : string)
| ServiceError (msg : string).

(** [str(e)] *)
Definition str_exn (e : exn) : string :=
  match e with
  | ValueError m => m
  | KeyError k => "'" +:+ k +:+ "'"
  | IndexError m => m
  | TypeError m => m
  | ServiceError m => m
  end.

Inductive outcome (A : Type) :=
| Ok (a : A)
| Raise (e : exn).
Arguments Ok {A} a.
Arguments Raise {A} e.

(** ** The vector store, as the client shows it *)

Inductive Distance := COSINE | EUCLID | DOT.

Record VectorParams := mkVectorParams {
  size : Z;
  distance : Distance
}.

Record PointStruct := mkPointStruct {
  id : Z;
  vector : list float;
  payload : gmap string string
}.

(** A hit of a search: [hit.payload] and [hit.score]. *)
Record ScoredPoint := mkScoredPoint {
  hit_id : Z;
  hit_score : float;
  hit_payload : gmap string string
}.

Record collection := mkCollection {
  config : VectorParams;
  points : gmap Z (list float * gmap string string)
}.

(** A chat message, [{"role": r, "content": c}]. *)
Record message := mkMessage {
  role : string;
  content : string
}.

(** ** Requests sent to the services *)

Inductive request :=
| ReqRegister (project_name endpoint : string) (auto_instrument : bool)
| ReqGetCollections
| ReqCreateCollection (collection_name : string) (vectors_config : VectorParams)
| ReqChatCompletion (model : string) (messages : list message)
| ReqEmbedding (model : string) (input : string)
| ReqUpsert (collection_name : string) (pts : list PointStruct)
| ReqSearch (collection_name : string) (query_vector : list float) (limit : Z).

(** What the services answer.  [fault] is consulted at every request, with
    the requests already sent: [Some e] makes the SDK call raise [e].
    [chat_choices] is the [message.content] of each choice of a completion
    (Python's [None] is [None]); [embedding_data] is the [embedding] of each
    entry of an embedding response; [ranker] is the answer of the store's
    nearest-neighbour index to a query on a collection. *)
Record services := mkServices {
  fault : list request → request → option exn;
  chat_choices : string → list message → list (option string);
  embedding_data : string → string → list (list float);
  ranker : collection → list float → Z → list ScoredPoint
}.

Inductive level := INFO | ERROR.

Inductive span_event :=
| SpanStart (name : string)
| SpanEnd (name : string).

(** A line written by [print].  The score line of the result loop keeps the
    score itself: [ScoreLine s h] is [f"Score: {s:.4f}\n{h}\n"]. *)
Inductive output :=
| Line (s : string)
| ScoreLine (score : float) (haiku : string).

Record world := mkWorld {
  environ : gmap string string;      (* os.environ *)
  dotenv : gmap string string;       (* the variables of the .env file *)
  svc : services;
  store : gmap string collection;    (* the collections of the vector store *)
  trace : list request;              (* requests sent so far, oldest first *)
  log : list (level * string);
  spans : list span_event;
  stdout : list output
}.

Definition set_environ (f : gmap string string → gmap string string) (w : world) : world :=
  mkWorld (f (environ w)) (dotenv w) (svc w) (store w) (trace w) (log w) (spans w) (stdout w).
Definition set_store (f : gmap string collection → gmap string collection) (w : world) : world :=
  mkWorld (environ w) (dotenv w) (svc w) (f (store w)) (trace w) (log w) (spans w) (stdout w).
Definition set_trace (f : list request → list request) (w : world) : world :=
  mkWorld (environ w) (dotenv w) (svc w) (store w) (f (trace w)) (log w) (spans w) (stdout w).
Definition set_log (f : list (level * string) → list (level * string)) (w : world) : world :=
  mkWorld (environ w) (dotenv w) (svc w) (store w) (trace w) (f (log w)) (spans w) (stdout w).
Definition set_spans (f : list span_event → list span_event) (w : world) : world :=
  mkWorld (environ w) (dotenv w) (svc w) (store w) (trace w) (log w) (f (spans w)) (stdout w).
Definition set_stdout (f : list output → list output) (w : world) : world :=
  mkWorld (environ w) (dotenv w) (svc w) (store w) (trace w) (log w) (spans w) (f (stdout w)).

(** ** The monad: state passing with exceptions *)

Definition M (A : Type) : Type := world → outcome A * world.

Definition ret {A} (a : A) : M A := fun w => (Ok a, w).

Definition bind {A B} (m : M A) (k : A → M B) : M B :=
  fun w =>
    match m w with
    | (Ok a, w') => k a w'
    | (Raise e, w') => (Raise e, w')
    end.

Definition raise {A} (e : exn) : M A := fun w => (Raise e, w).

Notation "'let*' x ':=' m 'in' k" := (bind m (fun x => k))
  (at level 10, x pattern, m at level 100, k at level 200, only parsing).
Notation "m ;; k" := (bind m (fun _ => k))
  (at level 100, k at level 200, right associativity, only parsing).

(** [logger.info(msg)] and [logger.error(msg)] *)
Definition logger_info (msg : string) : M unit :=
  fun w => (Ok tt, set_log (fun l => l ++ [(INFO, msg)]) w).
Definition logger_error (msg : string) : M unit :=
  fun w => (Ok tt, set_log (fun l => l ++ [(ERROR, msg)]) w).

(** [print(...)] *)
Definition print (o : output) : M unit :=
  fun w => (Ok tt, set_stdout (fun l => l ++ [o]) w).

(** [try: body  except Exception as e: logger.error(f"{prefix}{str(e)}"); raise] *)
Definition try_log {A} (prefix : string) (body : M A) : M A :=
  fun w =>
    match body w with
    | (Ok a, w') => (Ok a, w')
    | (Raise e, w') =>
        (Raise e, set_log (fun l => l ++ [(ERROR, prefix +:+ str_exn e)]) w')
    end.

(** [with tracer.start_as_current_span(name): body]; the span is ended on
    the way out whether [body] returns or raises. *)
Definition with_span {A} (name : string) (body : M A) : M A :=
  fun w =>
    let '(r, w') := body (set_spans (fun l => l ++ [SpanStart name]) w) in
    (r, set_spans (fun l => l ++ [SpanEnd name]) w').

(** A call into an SDK: the request is sent (and recorded); the service
    either rejects it or [answer] is computed on the world as it is then. *)
Definition call {A} (r : request) (answer : M A) : M A :=
  fun w =>
    let w1 := set_trace (fun t => t ++ [r]) w in
    match fault (svc w) (trace w) r with
    | Some e => (Raise e, w1)
    | None => answer w1
    end.

(** [xs[0]] *)
Definition first_item {A} (xs : list A) : M A :=
  match xs with
  | x :: _ => ret x
  | [] => raise (IndexError "list index out of range")
  end.

(** [d[k]] on a dict *)
Definition getitem (d : gmap string string) (k : string) : M string :=
  match d !! k with
  | Some v => ret v
  | None => raise (KeyError k)
  end.

(** The value of a Python expression that is a [str] or [None], where a
    [str] is needed ([text[:50]] raises on [None]). *)
Definition subscriptable (text : option string) : M string :=
  match text with
  | Some s => ret s
  | None => raise (TypeError "'NoneType' object is not subscriptable")
  end.

(** [[f(x) for x in xs]], left to right; the first exception ends it. *)
Fixpoint comprehension {A B} (f : A → M B) (xs : list A) : M (list B) :=
  match xs with
  | [] => ret []
  | x :: rest =>
      let* y := f x in
      let* ys := comprehension f rest in
      ret (y :: ys)
  end.

(** [for x in xs: body(x)] *)
Fixpoint for_each {A} (body : A → M unit) (xs : list A) : M unit :=
  match xs with
  | [] => ret tt
  | x :: rest => body x ;; for_each body rest
  end.

(** ** The libraries the script calls *)

(** [load_dotenv()] of python-dotenv with its default [override=False]: the
    variables of the .env file are added to [os.environ], those already set
    in the process keep their value. *)
Definition load_dotenv : M unit :=
  fun w => (Ok tt, set_environ (fun e => e ∪ dotenv w) w).

(** [os.getenv(key)] and [os.getenv(key, default)] *)
Definition getenv (key : string) : M (option string) :=
  fun w => (Ok (environ w !! key), w).
Definition getenv_default (key dflt : string) : M string :=
  fun w => (Ok (default dflt (environ w !! key)), w).

(** [phoenix.otel.register(project_name=.., endpoint=.., auto_instrument=..)] *)
Definition register (project_name endpoint : string) (auto_instrument : bool) : M unit :=
  call (ReqRegister project_name endpoint auto_instrument) (ret tt).

Record QdrantClient := mkQdrantClient {
  host : string;
  port : string
}.

Record OpenAI := mkOpenAI {
  api_key : string
}.

(** Modelled from the spec: the vector database behind [qdrant_client] is not
    part of the script.  Section 6 of the specification lists its four
    operations: collection listing, collection creation (name, vector size,
    metric), point upsert (id, vector, payload map) and similarity search
    (query vector, result limit); the glossary defines an upsert as an insert
    that overwrites any existing record sharing the same identifier.

    [get_collections] lists the names of the collections. *)
Definition get_collections (client : QdrantClient) : M (list string) :=
  call ReqGetCollections (fun w => (Ok (map_to_list (store w)).*1, w)).

(** Modelled from the spec: collection creation adds a collection of the given
    name and vector parameters, holding no point.  The specification does not
    say what creating an existing collection does; the service refuses it. *)
Definition create_collection (client : QdrantClient) (collection_name : string)
    (vectors_config : VectorParams) : M unit :=
  call (ReqCreateCollection collection_name vectors_config)
    (fun w =>
       match store w !! collection_name with
       | Some _ => (Raise (ServiceError "Collection already exists"), w)
       | None =>
           (Ok tt, set_store (insert collection_name (mkCollection vectors_config ∅)) w)
       end).

Definition upsert_point (m : gmap Z (list float * gmap string string)) (p : PointStruct) :
    gmap Z (list float * gmap string string) :=
  <[id p := (vector p, payload p)]> m.

(** Modelled from the spec: upsert writes each point under its identifier,
    overwriting any existing point with the same identifier. *)
Definition upsert (client : QdrantClient) (collection_name : string)
    (pts : list PointStruct) : M unit :=
  call (ReqUpsert collection_name pts)
    (fun w =>
       match store w !! collection_name with
       | None => (Raise (ServiceError "Collection not found"), w)
       | Some c =>
           (Ok tt,
            set_store
              (insert collection_name (mkCollection (config c) (foldl upsert_point (points c) pts)))
              w)
       end).

(** Modelled from the spec: similarity search answers with the hits the
    store's index finds for the query vector and the limit.  The ranking
    itself (floating-point similarity under the collection's metric) is the
    service's and is left to [ranker]. *)
Definition search (client : QdrantClient) (collection_name : string)
    (query_vector : list float) (limit : Z) : M (list ScoredPoint) :=
  call (ReqSearch collection_name query_vector limit)
    (fun w =>
       match store w !! collection_name with
       | None => (Raise (ServiceError "Collection not found"), w)
       | Some c => (Ok (ranker (svc w) c query_vector limit), w)
       end).

(** [client.chat.completions.create(model=.., messages=..)]; the result is
    the list of [choice.message.content] of the response. *)
Definition chat_completions_create (client : OpenAI) (model : string)
    (messages : list message) : M (list (option string)) :=
  call (ReqChatCompletion model messages)
    (fun w => (Ok (chat_choices (svc w) model messages), w)).

(** [client.embeddings.create(model=.., input=..)]; the result is the list
    of [entry.embedding] of [response.data]. *)
Definition embeddings_create (client : OpenAI) (model input : string) :
    M (list (list float)) :=
  call (ReqEmbedding model input)
    (fun w => (Ok (embedding_data (svc w) model input), w)).

(** ** main.py *)

Definition setup_environment : M (string * string * string * string) :=
  load_dotenv ;;
  let* api_key := getenv "OPENAI_API_KEY" in
  let* phoenix_endpoint :=
    getenv_default "PHOENIX_COLLECTOR_ENDPOINT" "http://localhost:6006/v1/traces" in
  let* qdrant_host := getenv_default "QDRANT_HOST" "localhost" in
  let* qdrant_port := getenv_default "QDRANT_PORT" "6333" in
  match api_key with
  | None | Some "" => raise (ValueError "OPENAI_API_KEY not found in .env file")
  | Some api_key =>
      logger_info ("Phoenix endpoint: " +:+ phoenix_endpoint) ;;
      logger_info ("Qdrant host: " +:+ qdrant_host +:+ ":" +:+ qdrant_port) ;;
      ret (api_key, phoenix_endpoint, qdrant_host, qdrant_port)
  end.

Definition configure_phoenix (endpoint : string) : M unit :=
  logger_info "Configuring Phoenix tracer..." ;;
  try_log "Failed to configure Phoenix tracer: "
    (let* tracer_provider := register "sample-llm-app" endpoint true in
     logger_info "Phoenix tracer configured successfully" ;;
     ret tracer_provider).

Definition setup_qdrant (host port : string) : M (QdrantClient * string) :=
  logger_info "Setting up Qdrant client..." ;;
  try_log "Failed to set up Qdrant: "
    (let client := mkQdrantClient host port in
     let* collections := get_collections client in
     let collection_name := "haikus" in
     (if decide (collection_name ∉ collections) then
        create_collection client collection_name (mkVectorParams 1536 COSINE) ;;
        logger_info ("Created Qdrant collection: " +:+ collection_name)
      else
        logger_info ("Qdrant collection " +:+ collection_name +:+ " already exists")) ;;
     ret (client, collection_name)).

Definition generate_haiku (client : OpenAI) : M (option string) :=
  logger_info "Generating haiku..." ;;
  try_log "Error generating haiku: "
    (let* choices :=
       chat_completions_create client "gpt-4o"
         [mkMessage "user" "Write a haiku about the ocean."] in
     let* haiku := first_item choices in
     logger_info "Haiku generated successfully" ;;
     ret haiku).

Definition generate_embedding (client : OpenAI) (text : option string) : M (list float) :=
  let* text := subscriptable text in
  logger_info ("Generating embedding for text: " +:+ String.substring 0 50 text +:+ "...") ;;
  try_log "Error generating embedding: "
    (let* data := embeddings_create client "text-embedding-ada-002" text in
     let* embedding := first_item data in
     logger_info "Embedding generated successfully" ;;
     ret embedding).

Definition store_in_qdrant (qdrant_client : QdrantClient) (collection_name : string)
    (haiku : option string) (embedding : list float) (point_id : Z) : M unit :=
  let* haiku := subscriptable haiku in
  logger_info ("Storing haiku in Qdrant: " +:+ String.substring 0 50 haiku +:+ "...") ;;
  try_log "Error storing in Qdrant: "
    (upsert qdrant_client collection_name
       [mkPointStruct point_id embedding {["haiku" := haiku]}] ;;
     logger_info "Haiku stored in Qdrant").

(** The default of the [limit] parameter. *)
Definition default_limit : Z := 2.

Definition search_similar_haikus (qdrant_client : QdrantClient) (collection_name : string)
    (embedding : list float) (limit : option Z) : M (list (string * float)) :=
  let limit := default default_limit limit in
  logger_info "Searching for similar haikus..." ;;
  try_log "Error searching Qdrant: "
    (let* search_result := search qdrant_client collection_name embedding limit in
     logger_info ("Found " +:+ pretty (length search_result) +:+ " similar haikus") ;;
     comprehension
       (fun hit =>
          let* haiku := getitem (hit_payload hit) "haiku" in
          ret (haiku, hit_score hit))
       search_result).

Definition main : M unit :=
  with_span "main"
    (let* (api_key, phoenix_endpoint, qdrant_host, qdrant_port) := setup_environment in
     configure_phoenix phoenix_endpoint ;;
     let* (qdrant_client, collection_name) := setup_qdrant qdrant_host qdrant_port in
     let openai_client := mkOpenAI api_key in
     let* (haiku, embedding) :=
       with_span "generate-and-store"
         (let* haiku := generate_haiku openai_client in
          print (Line "Generated Haiku:") ;;
          print (Line (default "None" haiku)) ;;
          let* embedding := generate_embedding openai_client haiku in
          store_in_qdrant qdrant_client collection_name haiku embedding 1 ;;
          ret (haiku, embedding)) in
     with_span "search-similar"
       (let* similar_haikus :=
          search_similar_haikus qdrant_client collection_name embedding None in
        print (Line (String (Ascii.ascii_of_nat 10) "Similar Haikus:")) ;;
        for_each (fun '(haiku, score) => print (ScoreLine score haiku)) similar_haikus)).

(** * Vocabulary of the properties *)

(** What [os.getenv] sees once [load_dotenv] has run. *)
Definition effective_env (w : world) : gmap string string := environ w ∪ dotenv w.

(** The value [os.getenv(var, dflt)] yields in [setup_environment]. *)
Definition setting (w : world) (var dflt : string) : string :=
  default dflt (effective_env w !! var).

Definition missing_key_error : exn :=
  ValueError "OPENAI_API_KEY not found in .env file".

(** The requests sent between an earlier world [w] and a later one [w']. *)
Definition requests_since (w w' : world) : list request :=
  drop (length (trace w)) (trace w').

(** [w'] is [w] after some more requests, all of which satisfy [P]. *)
Definition extends (P : request → Prop) (w w' : world) : Prop :=
  ∃ l, trace w' = trace w ++ l ∧ Forall P l.

(** Every request a computation sends satisfies [P]. *)
Definition sends {A} (m : M A) (P : request → Prop) : Prop :=
  ∀ w, extends P w (m w).2.


(** The steps of [main], in the order it runs them. *)
Inductive stage :=
| Environment | Tracer | VectorStore | Generation | Embedding | Storage | Search.

Definition stage_index (s : stage) : nat :=
  match s with
  | Environment => 0
  | Tracer => 1
  | VectorStore => 2
  | Generation => 3
  | Embedding => 4
  | Storage => 5
  | Search => 6
  end.

(** The step a request belongs to. *)
Definition request_stage (r : request) : stage :=
  match r with
  | ReqRegister _ _ _ => Tracer
  | ReqGetCollections => VectorStore
  | ReqCreateCollection _ _ => VectorStore
  | ReqChatCompletion _ _ => Generation
  | ReqEmbedding _ _ => Embedding
  | ReqUpsert _ _ => Storage
  | ReqSearch _ _ _ => Search
  end.

(** [r] is a request of the step [s] or of an earlier one. *)
Definition upto (s : stage) (r : request) : Prop :=
  (stage_index (request_stage r) ≤ stage_index s)%nat.

(** The requests sent up to a step are requests of that step or of an
    earlier one. *)
Definition sent_upto (k : nat) (w w' : world) : Prop :=
  ∀ st, (k ≤ stage_index st)%nat → extends (upto st) w w'.

(** The collection [setup_qdrant] creates and the request that creates it. *)
Definition haikus_collection : collection :=
  mkCollection (mkVectorParams 1536 COSINE) ∅.
Definition creation_request : request :=
  ReqCreateCollection "haikus" (mkVectorParams 1536 COSINE).

Definition open_span (name : string) (w : world) : world :=
  set_spans (fun l => l ++ [SpanStart name]) w.
Definition close_span (name : string) (w : world) : world :=
  set_spans (fun l => l ++ [SpanEnd name]) w.
Definition printed (o : output) (w : world) : world :=
  set_stdout (fun l => l ++ [o]) w.

(** The first step of a run of [main] from [w] that raises, with the
    exception and the world it leaves; [None] when every step returns.
    Each step is run on the world and with the values [main] runs it on. *)
Definition first_failure (w : world) : option (stage * exn * world) :=
  match setup_environment (open_span "main" w) with
  | (Raise e, w1) => Some (Environment, e, w1)
  | (Ok (key, phoenix_endpoint, qdrant_host, qdrant_port), w1) =>
  match configure_phoenix phoenix_endpoint w1 with
  | (Raise e, w2) => Some (Tracer, e, w2)
  | (Ok _, w2) =>
  match setup_qdrant qdrant_host qdrant_port w2 with
  | (Raise e, w3) => Some (VectorStore, e, w3)
  | (Ok (qdrant_client, collection_name), w3) =>
  match generate_haiku (mkOpenAI key) (open_span "generate-and-store" w3) with
  | (Raise e, w4) => Some (Generation, e, w4)
  | (Ok haiku, w4) =>
  match generate_embedding (mkOpenAI key) haiku
          (printed (Line (default "None" haiku)) (printed (Line "Generated Haiku:") w4)) with
  | (Raise e, w5) => Some (Embedding, e, w5)
  | (Ok embedding, w5) =>
  match store_in_qdrant qdrant_client collection_name haiku embedding 1 w5 with
  | (Raise e, w6) => Some (Storage, e, w6)
  | (Ok _, w6) =>
  match search_similar_haikus qdrant_client collection_name embedding None
          (open_span "search-similar" (close_span "generate-and-store" w6)) with
  | (Raise e, w7) => Some (Search, e, w7)
  | (Ok _, _) => None
  end end end end end end end.

(** Two worlds that differ at most in the spans recorded. *)
Definition same_effects (w w' : world) : Prop :=
  environ w' = environ w ∧ store w' = store w ∧ trace w' = trace w ∧
  log w' = log w ∧ stdout w' = stdout w.



(** The list comprehension of [search_similar_haikus], which touches no
    state, as a function of the hits. *)
Fixpoint pairs (hits : list ScoredPoint) : outcome (list (string * float)) :=
  match hits with
  | [] => Ok []
  | hit :: rest =>
      match hit_payload hit !! "haiku" with
      | None => Raise (KeyError "haiku")
      | Some haiku =>
          match pairs rest with
          | Ok ys => Ok ((haiku, hit_score hit) :: ys)
          | Raise e => Raise e
          end
      end
  end.


(** A component [f] of the world that updates of the environment, of the
    store, of the requests and of the log leave alone. *)
Class Inert {X} (f : world → X) : Prop := {
  inert_environ : ∀ g w, f (set_environ g w) = f w;
  inert_store : ∀ g w, f (set_store g w) = f w;
  inert_trace : ∀ g w, f (set_trace g w) = f w;
  inert_log : ∀ g w, f (set_log g w) = f w
}.

(** A computation leaves the component [f] of the world as it found it. *)
Definition keeps {A X} (f : world → X) (m : M A) : Prop :=
  ∀ w, f (m w).2 = f w.

(** The prompt and the models the script names. *)
Definition prompt : list message :=
  [mkMessage "user" "Write a haiku about the ocean."].
Definition embedding_model : string := "text-embedding-ada-002".


(** The collection "haikus" as a run finds it: the existing one, or the
    empty one [setup_qdrant] creates. *)
Definition haikus_before (w : world) : collection :=
  default haikus_collection (store w !! "haikus").

(** The collection "haikus" once the point 1 has been written to it. *)
Definition haikus_after (w : world) (embedding : list float) (text : string) : collection :=
  mkCollection (config (haikus_before w))
    (<[1%Z := (embedding, {["haiku" := text]})]> (points (haikus_before w))).





(** ** Sample worlds *)

Definition sample_hits : list ScoredPoint :=
  [mkScoredPoint 1 0.875%float {["haiku" := "Waves fold into foam"]};
   mkScoredPoint 7 0.5%float {["haiku" := "Salt wind, grey morning"]}].

Definition sample_services : services :=
  mkServices
    (fun _ _ => None)
    (fun _ _ => [Some "Waves fold into foam"])
    (fun _ _ => [[0.25%float; 0.5%float]])
    (fun _ _ _ => sample_hits).

Definition sample_world : world :=
  mkWorld {["OPENAI_API_KEY" := "sk-test"; "QDRANT_HOST" := "qdrant.internal"]}
    ∅ sample_services ∅ [] [] [] [].

(** A store that already holds the collection, with one point. *)
Definition stocked_world : world :=
  set_store
    (insert "haikus"
       (mkCollection (mkVectorParams 1536 COSINE)
          {[7%Z := ([0.5%float; 0.5%float], {["haiku" := "Salt wind, grey morning"]})]}))
    sample_world.

(** The completion endpoint rejects every request. *)
Definition generation_outage : world :=
  mkWorld (environ sample_world) ∅
    (mkServices
       (fun _ r =>
          match r with
          | ReqChatCompletion _ _ => Some (ServiceError "rate limit exceeded")
          | _ => None
          end)
       (chat_choices sample_services) (embedding_data sample_services)
       (ranker sample_services))
    ∅ [] [] [] [].

(** The index answers with a hit whose payload has no text. *)
Definition untitled_world : world :=
  mkWorld (environ sample_world) ∅
    (mkServices (fun _ _ => None)
       (chat_choices sample_services) (embedding_data sample_services)
       (fun _ _ _ =>
          [mkScoredPoint 1 0.875%float {["haiku" := "Waves fold into foam"]};
           mkScoredPoint 9 0.5%float ∅]))
    (store stocked_world) [] [] [] [].

(** The index rejects every search. *)
Definition search_outage : world :=
  mkWorld (environ sample_world) ∅
    (mkServices
       (fun _ r =>
          match r with
          | ReqSearch _ _ _ => Some (ServiceError "timed out")
          | _ => None
          end)
       (chat_choices sample_services) (embedding_data sample_services)
       (ranker sample_services))
    (store stocked_world) [] [] [] [].


(** The completion has no choice and the embedding response no entry. *)
Definition empty_replies : world :=
  mkWorld (environ sample_world) ∅
    (mkServices (fun _ _ => None) (fun _ _ => []) (fun _ _ => [])
       (ranker sample_services))
    ∅ [] [] [] [].

(** * Properties *)

(** ** The script on the sample worlds *)

Example main_sample_world :
  (main sample_world).1 = Ok tt ∧
  trace (main sample_world).2 =
    [ReqRegister "sample-llm-app" "http://localhost:6006/v1/traces" true;
     ReqGetCollections;
     ReqCreateCollection "haikus" (mkVectorParams 1536 COSINE);
     ReqChatCompletion "gpt-4o" [mkMessage "user" "Write a haiku about the ocean."];
     ReqEmbedding "text-embedding-ada-002" "Waves fold into foam";
     ReqUpsert "haikus"
       [mkPointStruct 1 [0.25%float; 0.5%float] {["haiku" := "Waves fold into foam"]}];
     ReqSearch "haikus" [0.25%float; 0.5%float] 2] ∧
  stdout (main sample_world).2 =
    [Line "Generated Haiku:";
     Line "Waves fold into foam";
     Line (String (Ascii.ascii_of_nat 10) "Similar Haikus:");
     ScoreLine 0.875%float "Waves fold into foam";
     ScoreLine 0.5%float "Salt wind, grey morning"] ∧
  spans (main sample_world).2 =
    [SpanStart "main"; SpanStart "generate-and-store"; SpanEnd "generate-and-store";
     SpanStart "search-similar"; SpanEnd "search-similar"; SpanEnd "main"].
Proof. vm_compute. repeat split; reflexivity. Qed.

Example main_generation_outage :
  (main generation_outage).1 = Raise (ServiceError "rate limit exceeded") ∧
  trace (main generation_outage).2 =
    [ReqRegister "sample-llm-app" "http://localhost:6006/v1/traces" true;
     ReqGetCollections;
     ReqCreateCollection "haikus" (mkVectorParams 1536 COSINE);
     ReqChatCompletion "gpt-4o" [mkMessage "user" "Write a haiku about the ocean."]] ∧
  stdout (main generation_outage).2 = [] ∧
  last (log (main generation_outage).2) =
    Some (ERROR, "Error generating haiku: rate limit exceeded") ∧
  spans (main generation_outage).2 =
    [SpanStart "main"; SpanStart "generate-and-store"; SpanEnd "generate-and-store";
     SpanEnd "main"].
Proof. vm_compute. repeat split; reflexivity. Qed.

Example search_untitled_world :
  (search_similar_haikus (mkQdrantClient "localhost" "6333") "haikus"
     [0.5%float; 0.5%float] None untitled_world).1 = Raise (KeyError "haiku").
Proof. vm_compute. reflexivity. Qed.

Lemma effective_env_None w key :
  effective_env w !! key = None ↔ environ w !! key = None ∧ dotenv w !! key = None.
Proof. unfold effective_env. apply lookup_union_None. Qed.

Lemma effective_env_environ w key v :
  environ w !! key = Some v → effective_env w !! key = Some v.
Proof. intros H. unfold effective_env. by apply lookup_union_Some_l. Qed.

(** ** The environment loader *)

Section SetupEnvironment.

Variable w : world.

Let loaded : world := set_environ (fun e => e ∪ dotenv w) w.

Lemma setup_environment_missing :
  effective_env w !! "OPENAI_API_KEY" = None →
  setup_environment w = (Raise missing_key_error, loaded).
Proof.
  intros H. unfold setup_environment, bind, load_dotenv, getenv, getenv_default.
  cbn. fold (effective_env w). by rewrite H.
Qed.

Lemma setup_environment_empty :
  effective_env w !! "OPENAI_API_KEY" = Some "" →
  setup_environment w = (Raise missing_key_error, loaded).
Proof.
  intros H. unfold setup_environment, bind, load_dotenv, getenv, getenv_default.
  cbn. fold (effective_env w). by rewrite H.
Qed.

Lemma setup_environment_ok key :
  effective_env w !! "OPENAI_API_KEY" = Some key → key ≠ "" →
  setup_environment w =
    (Ok (key,
         default "http://localhost:6006/v1/traces"
           (effective_env w !! "PHOENIX_COLLECTOR_ENDPOINT"),
         default "localhost" (effective_env w !! "QDRANT_HOST"),
         default "6333" (effective_env w !! "QDRANT_PORT")),
     set_log
       (fun l =>
          (l ++ [(INFO, "Phoenix endpoint: " +:+
                    default "http://localhost:6006/v1/traces"
                      (effective_env w !! "PHOENIX_COLLECTOR_ENDPOINT"))]) ++
          [(INFO, "Qdrant host: " +:+
              default "localhost" (effective_env w !! "QDRANT_HOST") +:+ ":" +:+
              default "6333" (effective_env w !! "QDRANT_PORT"))])
       loaded).
Proof.
  intros H Hne. unfold setup_environment, bind, load_dotenv, getenv, getenv_default.
  cbn. fold (effective_env w). rewrite H.
  destruct key as [|c key]; [done|]. reflexivity.
Qed.

End SetupEnvironment.

(** ** Requests sent by a computation *)

Section Extends.

Variable P : request → Prop.

Lemma extends_refl w : extends P w w.
Proof. exists []. by rewrite app_nil_r. Qed.

Lemma extends_same w w' : trace w' = trace w → extends P w w'.
Proof. intros H. exists []. by rewrite app_nil_r. Qed.

Lemma extends_trans w1 w2 w3 : extends P w1 w2 → extends P w2 w3 → extends P w1 w3.
Proof.
  intros (l1 & H1 & F1) (l2 & H2 & F2). exists (l1 ++ l2). split.
  - by rewrite H2, H1, app_assoc.
  - by apply Forall_app.
Qed.

Lemma extends_weaken (Q : request → Prop) w w' :
  (∀ r, Q r → P r) → extends Q w w' → extends P w w'.
Proof.
  intros HQP (l & H & F). exists l. split; [done|].
  eapply Forall_impl; eauto.
Qed.

Lemma extends_requests_since w w' : extends P w w' → Forall P (requests_since w w').
Proof.
  intros (l & H & F). unfold requests_since. by rewrite H, drop_app_length.
Qed.

Lemma extends_one w r : P r → extends P w (set_trace (fun t => t ++ [r]) w).
Proof. intros HP. exists [r]. split; [done|]. by apply Forall_singleton. Qed.

End Extends.

Lemma sends_run {A} (m : M A) P w r w' : sends m P → m w = (r, w') → extends P w w'.
Proof. intros H E. specialize (H w). by rewrite E in H. Qed.

Lemma sends_weaken {A} (m : M A) (P Q : request → Prop) :
  (∀ r, Q r → P r) → sends m Q → sends m P.
Proof. intros HQP H w. eapply extends_weaken; eauto. Qed.

Lemma sends_quiet {A} (m : M A) P : (∀ w, trace (m w).2 = trace w) → sends m P.
Proof. intros H w. by apply extends_same. Qed.

Lemma sends_ret {A} (a : A) P : sends (ret a) P.
Proof. by apply sends_quiet. Qed.

Lemma sends_raise {A} e P : sends (@raise A e) P.
Proof. by apply sends_quiet. Qed.

Lemma sends_bind {A B} (m : M A) (k : A → M B) P :
  sends m P → (∀ a, sends (k a) P) → sends (bind m k) P.
Proof.
  intros Hm Hk w. unfold bind. specialize (Hm w).
  destruct (m w) as [[a|e] w1]; [|done].
  eapply extends_trans; [exact Hm|apply Hk].
Qed.

Lemma sends_logger_info msg P : sends (logger_info msg) P.
Proof. by apply sends_quiet. Qed.

Lemma sends_print o P : sends (print o) P.
Proof. by apply sends_quiet. Qed.

Lemma sends_try_log {A} prefix (body : M A) P : sends body P → sends (try_log prefix body) P.
Proof.
  intros H w. unfold try_log. specialize (H w).
  by destruct (body w) as [[a|e] w1].
Qed.

Lemma sends_with_span {A} name (body : M A) P : sends body P → sends (with_span name body) P.
Proof.
  intros H w. unfold with_span.
  specialize (H (set_spans (fun l => l ++ [SpanStart name]) w)).
  by destruct (body _) as [r w1].
Qed.

Lemma sends_call {A} r (answer : M A) (P : request → Prop) :
  P r → (∀ w, trace (answer w).2 = trace w) → sends (call r answer) P.
Proof.
  intros HP Hq w. unfold call. destruct (fault _ _ _).
  - by apply extends_one.
  - exists [r]. split; [|by apply Forall_singleton]. by rewrite Hq.
Qed.

Lemma sends_first_item {A} (xs : list A) P : sends (first_item xs) P.
Proof. destruct xs; [apply sends_raise|apply sends_ret]. Qed.

Lemma sends_getitem d k P : sends (getitem d k) P.
Proof. unfold getitem. destruct (d !! k); [apply sends_ret|apply sends_raise]. Qed.

Lemma sends_subscriptable text P : sends (subscriptable text) P.
Proof. destruct text; [apply sends_ret|apply sends_raise]. Qed.

Lemma sends_comprehension {A B} (f : A → M B) xs P :
  (∀ x, sends (f x) P) → sends (comprehension f xs) P.
Proof.
  intros Hf. induction xs as [|x xs IH]; [apply sends_ret|].
  cbn. apply sends_bind; [apply Hf|]. intros y.
  apply sends_bind; [apply IH|]. intros ys. apply sends_ret.
Qed.


(** The library calls: one request each. *)

Lemma sends_register project endpoint auto (P : request → Prop) :
  P (ReqRegister project endpoint auto) → sends (register project endpoint auto) P.
Proof. intros HP. by apply sends_call. Qed.

Lemma sends_get_collections client (P : request → Prop) :
  P ReqGetCollections → sends (get_collections client) P.
Proof. intros HP. by apply sends_call. Qed.

Lemma sends_create_collection client name params (P : request → Prop) :
  P (ReqCreateCollection name params) → sends (create_collection client name params) P.
Proof.
  intros HP. apply sends_call; [done|]. intros w. by destruct (store w !! name).
Qed.

Lemma sends_upsert client name pts (P : request → Prop) :
  P (ReqUpsert name pts) → sends (upsert client name pts) P.
Proof.
  intros HP. apply sends_call; [done|]. intros w. by destruct (store w !! name).
Qed.

Lemma sends_search client name query limit (P : request → Prop) :
  P (ReqSearch name query limit) → sends (search client name query limit) P.
Proof.
  intros HP. apply sends_call; [done|]. intros w. by destruct (store w !! name).
Qed.

Lemma sends_chat_completions_create client model messages (P : request → Prop) :
  P (ReqChatCompletion model messages) →
  sends (chat_completions_create client model messages) P.
Proof. intros HP. by apply sends_call. Qed.

Lemma sends_embeddings_create client model input (P : request → Prop) :
  P (ReqEmbedding model input) → sends (embeddings_create client model input) P.
Proof. intros HP. by apply sends_call. Qed.

Ltac sends_auto :=
  repeat lazymatch goal with
    | |- sends (bind _ _) _ => apply sends_bind; [|intros ?]
    | |- sends (try_log _ _) _ => apply sends_try_log
    | |- sends (with_span _ _) _ => apply sends_with_span
    | |- sends (ret _) _ => apply sends_ret
    | |- sends (raise _) _ => apply sends_raise
    | |- sends (logger_info _) _ => apply sends_logger_info
    | |- sends (print _) _ => apply sends_print
    | |- sends (first_item _) _ => apply sends_first_item
    | |- sends (getitem _ _) _ => apply sends_getitem
    | |- sends (subscriptable _) _ => apply sends_subscriptable
    end.

(** The steps of [main]: what each of them sends. *)

Lemma sends_setup_environment P : sends setup_environment P.
Proof.
  unfold setup_environment. apply sends_bind; [by apply sends_quiet|intros _].
  apply sends_bind; [by apply sends_quiet|intros key].
  apply sends_bind; [by apply sends_quiet|intros endpoint].
  apply sends_bind; [by apply sends_quiet|intros h].
  apply sends_bind; [by apply sends_quiet|intros p].
  destruct key as [[|c key]|]; sends_auto.
Qed.

Lemma sends_configure_phoenix endpoint (P : request → Prop) :
  P (ReqRegister "sample-llm-app" endpoint true) → sends (configure_phoenix endpoint) P.
Proof. intros HP. unfold configure_phoenix. sends_auto. by apply sends_register. Qed.

Lemma sends_setup_qdrant h p (P : request → Prop) :
  P ReqGetCollections → P (ReqCreateCollection "haikus" (mkVectorParams 1536 COSINE)) →
  sends (setup_qdrant h p) P.
Proof.
  intros HP1 HP2. unfold setup_qdrant. sends_auto.
  - by apply sends_get_collections.
  - case_decide; sends_auto. by apply sends_create_collection.
Qed.

Lemma sends_generate_haiku client (P : request → Prop) :
  P (ReqChatCompletion "gpt-4o" [mkMessage "user" "Write a haiku about the ocean."]) →
  sends (generate_haiku client) P.
Proof.
  intros HP. unfold generate_haiku. sends_auto. by apply sends_chat_completions_create.
Qed.

Lemma sends_generate_embedding client text (P : request → Prop) :
  (∀ input, P (ReqEmbedding "text-embedding-ada-002" input)) →
  sends (generate_embedding client text) P.
Proof.
  intros HP. unfold generate_embedding. sends_auto. by apply sends_embeddings_create.
Qed.

Lemma sends_store_in_qdrant client name haiku embedding point_id (P : request → Prop) :
  (∀ text, P (ReqUpsert name [mkPointStruct point_id embedding {["haiku" := text]}])) →
  sends (store_in_qdrant client name haiku embedding point_id) P.
Proof.
  intros HP. unfold store_in_qdrant. sends_auto. by apply sends_upsert.
Qed.

Lemma sends_search_similar_haikus client name embedding limit (P : request → Prop) :
  P (ReqSearch name embedding (default default_limit limit)) →
  sends (search_similar_haikus client name embedding limit) P.
Proof.
  intros HP. unfold search_similar_haikus. sends_auto.
  - by apply sends_search.
  - apply sends_comprehension. intros hit. sends_auto.
Qed.

(** ** The entry point *)

Lemma extends_from P w0 w w' : trace w0 = trace w → extends P w0 w' → extends P w w'.
Proof. intros H (l & E & F). exists l. by rewrite <- H. Qed.

Ltac upto_auto := intros; unfold upto; cbn; lia.

Lemma main_first_failure w st e wf :
  first_failure w = Some (st, e, wf) →
  (main w).1 = Raise e ∧ same_effects wf (main w).2.
Proof.
  unfold first_failure, main, with_span, bind, print, ret, open_span, close_span, printed.
  cbv beta.
  destruct (setup_environment _) as [[[[[key ep] h] p]|e1] w1]; cbv beta iota;
    [|intros [= <- <- <-]; by cbn].
  destruct (configure_phoenix _ _) as [[[]|e2] w2]; cbv beta iota;
    [|intros [= <- <- <-]; by cbn].
  destruct (setup_qdrant _ _ _) as [[[client name]|e3] w3]; cbv beta iota;
    [|intros [= <- <- <-]; by cbn].
  destruct (generate_haiku _ _) as [[haiku|e4] w4]; cbv beta iota;
    [|intros [= <- <- <-]; by cbn].
  destruct (generate_embedding _ _ _) as [[embedding|e5] w5]; cbv beta iota;
    [|intros [= <- <- <-]; by cbn].
  destruct (store_in_qdrant _ _ _ _ _ _) as [[[]|e6] w6]; cbv beta iota;
    [|intros [= <- <- <-]; by cbn].
  destruct (search_similar_haikus _ _ _ _ _) as [[similar|e7] w7]; cbv beta iota;
    [done|intros [= <- <- <-]; by cbn].
Qed.

Lemma sent_upto_step {A} (m : M A) k k' w w1 w1' r w2 :
  sent_upto k w w1 → trace w1' = trace w1 → (k ≤ k')%nat →
  (∀ st, (k' ≤ stage_index st)%nat → sends m (upto st)) →
  m w1' = (r, w2) →
  sent_upto k' w w2.
Proof.
  intros X Ht Hk Hm E st Hst.
  eapply extends_trans; [apply X; lia|].
  eapply extends_from; [exact Ht|]. eapply sends_run; [|exact E]. by apply Hm.
Qed.

Lemma first_failure_extends w st e wf :
  first_failure w = Some (st, e, wf) → extends (upto st) w wf.
Proof.
  assert (sent_upto 0 w w) as X0 by (intros s _; apply extends_refl).
  unfold first_failure.
  destruct (setup_environment _) as [[[[[key ep] h] p]|e1] w1] eqn:E1.
  all: assert (sent_upto 0 w w1) as X1
    by (eapply (sent_upto_step _ 0 0); [exact X0| |lia| |exact E1]; [done|];
        intros; apply sends_setup_environment).
  2:{ intros [= <- <- <-]. by apply X1. }
  destruct (configure_phoenix _ _) as [[[]|e2] w2] eqn:E2.
  all: assert (sent_upto 1 w w2) as X2
    by (eapply (sent_upto_step _ 0 1); [exact X1|reflexivity|lia| |exact E2];
        intros; apply sends_configure_phoenix; upto_auto).
  2:{ intros [= <- <- <-]. by apply X2. }
  destruct (setup_qdrant _ _ _) as [[[client name]|e3] w3] eqn:E3.
  all: assert (sent_upto 2 w w3) as X3
    by (eapply (sent_upto_step _ 1 2); [exact X2|reflexivity|lia| |exact E3];
        intros; apply sends_setup_qdrant; upto_auto).
  2:{ intros [= <- <- <-]. by apply X3. }
  destruct (generate_haiku _ _) as [[haiku|e4] w4] eqn:E4.
  all: assert (sent_upto 3 w w4) as X4
    by (eapply (sent_upto_step _ 2 3); [exact X3| |lia| |exact E4]; [done|];
        intros; apply sends_generate_haiku; upto_auto).
  2:{ intros [= <- <- <-]. by apply X4. }
  destruct (generate_embedding _ _ _) as [[embedding|e5] w5] eqn:E5.
  all: assert (sent_upto 4 w w5) as X5
    by (eapply (sent_upto_step _ 3 4); [exact X4| |lia| |exact E5]; [done|];
        intros; apply sends_generate_embedding; upto_auto).
  2:{ intros [= <- <- <-]. by apply X5. }
  destruct (store_in_qdrant _ _ _ _ _ _) as [[[]|e6] w6] eqn:E6.
  all: assert (sent_upto 5 w w6) as X6
    by (eapply (sent_upto_step _ 4 5); [exact X5|reflexivity|lia| |exact E6];
        intros; apply sends_store_in_qdrant; upto_auto).
  2:{ intros [= <- <- <-]. by apply X6. }
  destruct (search_similar_haikus _ _ _ _ _) as [[similar|e7] w7] eqn:E7; [done|].
  assert (sent_upto 6 w w7) as X7
    by (eapply (sent_upto_step _ 5 6); [exact X6| |lia| |exact E7]; [done|];
        intros; apply sends_search_similar_haikus; upto_auto).
  intros [= <- <- <-]. by apply X7.
Qed.

Lemma main_no_failure w : first_failure w = None → (main w).1 = Ok tt.
Proof.
  unfold first_failure, main, with_span, bind, print, ret, open_span, close_span, printed.
  cbv beta.
  destruct (setup_environment _) as [[[[[key ep] h] p]|e1] w1]; cbv beta iota; [|done].
  destruct (configure_phoenix _ _) as [[[]|e2] w2]; cbv beta iota; [|done].
  destruct (setup_qdrant _ _ _) as [[[client name]|e3] w3]; cbv beta iota; [|done].
  destruct (generate_haiku _ _) as [[haiku|e4] w4]; cbv beta iota; [|done].
  destruct (generate_embedding _ _ _) as [[embedding|e5] w5]; cbv beta iota; [|done].
  destruct (store_in_qdrant _ _ _ _ _ _) as [[[]|e6] w6]; cbv beta iota; [|done].
  destruct (search_similar_haikus _ _ _ _ _) as [[similar|e7] w7]; cbv beta iota; [|done].
  intros _. generalize (set_stdout (λ l : list output, l ++ [Line (String (Ascii.ascii_of_nat 10) "Similar Haikus:")]) w7).
  induction similar as [|[haiku' score] rest IH]; intros w8; [done|].
  cbn. apply IH.
Qed.

(** ** The vector-store initialiser *)

Lemma elem_of_collection_names (m : gmap string collection) name :
  name ∈ (map_to_list m).*1 ↔ is_Some (m !! name).
Proof.
  rewrite list_elem_of_fmap. split.
  - intros ([k c] & -> & H). apply elem_of_map_to_list in H. by exists c.
  - intros [c H]. exists (name, c). split; [done|]. by apply elem_of_map_to_list.
Qed.

Section SetupQdrant.

Variables (w : world) (h p : string).

Let listed : list request := trace w ++ [ReqGetCollections].
Let creation : request := ReqCreateCollection "haikus" (mkVectorParams 1536 COSINE).

Lemma setup_qdrant_listing_fault e :
  fault (svc w) (trace w) ReqGetCollections = Some e →
  (setup_qdrant h p w).1 = Raise e ∧
  trace (setup_qdrant h p w).2 = listed ∧
  store (setup_qdrant h p w).2 = store w.
Proof.
  intros H. unfold setup_qdrant, bind, try_log, get_collections, call, logger_info.
  cbn. by rewrite H.
Qed.

Lemma setup_qdrant_present :
  fault (svc w) (trace w) ReqGetCollections = None →
  is_Some (store w !! "haikus") →
  (setup_qdrant h p w).1 = Ok (mkQdrantClient h p, "haikus") ∧
  trace (setup_qdrant h p w).2 = listed ∧
  store (setup_qdrant h p w).2 = store w.
Proof.
  intros H Hin. unfold setup_qdrant, bind, try_log, get_collections, call, logger_info.
  cbn. rewrite H. cbn.
  case_decide as Hd; [|done].
  exfalso. apply Hd. by apply elem_of_collection_names.
Qed.

Lemma setup_qdrant_absent_fault e :
  fault (svc w) (trace w) ReqGetCollections = None →
  store w !! "haikus" = None →
  fault (svc w) listed creation = Some e →
  (setup_qdrant h p w).1 = Raise e ∧
  trace (setup_qdrant h p w).2 = listed ++ [creation] ∧
  store (setup_qdrant h p w).2 = store w.
Proof.
  intros H Hnone Hc.
  unfold setup_qdrant, bind, try_log, get_collections, create_collection, call, logger_info.
  cbn. rewrite H. cbn.
  case_decide as Hd.
  - cbn. fold listed. fold creation. by rewrite Hc.
  - apply elem_of_collection_names in Hd. rewrite Hnone in Hd. by destruct Hd.
Qed.

Lemma setup_qdrant_absent_created :
  fault (svc w) (trace w) ReqGetCollections = None →
  store w !! "haikus" = None →
  fault (svc w) listed creation = None →
  (setup_qdrant h p w).1 = Ok (mkQdrantClient h p, "haikus") ∧
  trace (setup_qdrant h p w).2 = listed ++ [creation] ∧
  store (setup_qdrant h p w).2 =
    <["haikus" := mkCollection (mkVectorParams 1536 COSINE) ∅]> (store w).
Proof.
  intros H Hnone Hc.
  unfold setup_qdrant, bind, try_log, get_collections, create_collection, call, logger_info.
  cbn. rewrite H. cbn.
  case_decide as Hd.
  - cbn. fold listed. fold creation. rewrite Hc. cbn. by rewrite Hnone.
  - apply elem_of_collection_names in Hd. rewrite Hnone in Hd. by destruct Hd.
Qed.

End SetupQdrant.

Lemma requests_since_app w w' l : trace w' = trace w ++ l → requests_since w w' = l.
Proof. intros H. unfold requests_since. by rewrite H, drop_app_length. Qed.

Lemma requests_since_same w w' : trace w' = trace w → requests_since w w' = [].
Proof. intros H. apply requests_since_app. by rewrite app_nil_r. Qed.

Lemma setup_qdrant_returns w h p client name :
  (setup_qdrant h p w).1 = Ok (client, name) →
  client = mkQdrantClient h p ∧ name = "haikus" ∧
  is_Some (store (setup_qdrant h p w).2 !! "haikus").
Proof.
  destruct (fault (svc w) (trace w) ReqGetCollections) as [e|] eqn:Hl.
  { destruct (setup_qdrant_listing_fault w h p e Hl) as (-> & _). done. }
  destruct (store w !! "haikus") as [c|] eqn:Hs.
  { destruct (setup_qdrant_present w h p Hl) as (-> & _ & ->); [by exists c|].
    intros [= <- <-]. rewrite Hs. by eauto. }
  destruct (fault (svc w) (trace w ++ [ReqGetCollections]) creation_request) as [e|] eqn:Hc.
  { destruct (setup_qdrant_absent_fault w h p e Hl Hs Hc) as (-> & _). done. }
  destruct (setup_qdrant_absent_created w h p Hl Hs Hc) as (-> & _ & ->).
  intros [= <- <-]. rewrite lookup_insert_eq. by eauto.
Qed.



(** ** Storage *)

Section StoreInQdrant.

Variables (w : world) (client : QdrantClient) (name text : string).
Variables (embedding : list float) (point_id : Z).



End StoreInQdrant.

(** ** Generation *)

Section GenerateHaiku.

Variables (w : world) (client : OpenAI).

Let prompt : list message := [mkMessage "user" "Write a haiku about the ocean."].
Let req : request := ReqChatCompletion "gpt-4o" prompt.

Lemma generate_haiku_trace : trace (generate_haiku client w).2 = trace w ++ [req].
Proof.
  unfold generate_haiku, bind, try_log, chat_completions_create, call, logger_info.
  cbn. fold prompt. fold req.
  destruct (fault _ _ _); [done|]. cbn. by destruct (chat_choices _ _ _).
Qed.

Lemma generate_haiku_result :
  (generate_haiku client w).1 =
    match fault (svc w) (trace w) req with
    | Some e => Raise e
    | None =>
        match chat_choices (svc w) "gpt-4o" prompt with
        | haiku :: _ => Ok haiku
        | [] => Raise (IndexError "list index out of range")
        end
    end.
Proof.
  unfold generate_haiku, bind, try_log, chat_completions_create, call, logger_info.
  cbn. fold prompt. fold req.
  destruct (fault _ _ _); [done|]. cbn. by destruct (chat_choices _ _ _).
Qed.

End GenerateHaiku.

(** ** Similarity search *)

Lemma comprehension_pairs hits w :
  comprehension
    (fun hit =>
       let* haiku := getitem (hit_payload hit) "haiku" in
       ret (haiku, hit_score hit))
    hits w
  = (pairs hits, w).
Proof.
  induction hits as [|hit rest IH]; [done|].
  cbn [comprehension pairs]. unfold bind at 1. unfold bind at 1. unfold getitem at 1.
  destruct (hit_payload hit !! "haiku") as [haiku|]; [|done].
  unfold ret at 1. unfold ret at 1. unfold bind at 1. rewrite IH. by destruct (pairs rest).
Qed.



Lemma pairs_missing hits :
  Exists (fun hit => hit_payload hit !! "haiku" = None) hits →
  pairs hits = Raise (KeyError "haiku").
Proof.
  induction 1 as [hit rest Hh|hit rest _ IH]; cbn.
  - by rewrite Hh.
  - destruct (hit_payload hit !! "haiku"); [|done]. by rewrite IH.
Qed.


Section SearchSimilarHaikus.

Variables (w : world) (client : QdrantClient) (name : string).
Variables (embedding : list float) (limit : option Z).

Let req : request := ReqSearch name embedding (default default_limit limit).

Lemma search_similar_haikus_trace :
  trace (search_similar_haikus client name embedding limit w).2 = trace w ++ [req].
Proof.
  unfold search_similar_haikus, bind at 1, try_log, bind at 1, search, call, logger_info.
  cbn. fold req. destruct (fault _ _ _); [done|].
  destruct (store w !! name); [|done].
  unfold bind. cbn. rewrite comprehension_pairs. by destruct (pairs _).
Qed.



Lemma search_similar_haikus_run c :
  fault (svc w) (trace w) req = None →
  store w !! name = Some c →
  let hits := ranker (svc w) c embedding (default default_limit limit) in
  let found :=
    set_log
      (fun l => l ++ [(INFO, "Found " +:+ pretty (length hits) +:+ " similar haikus")])
      (set_trace (fun t => t ++ [req])
         (set_log (fun l => l ++ [(INFO, "Searching for similar haikus...")]) w)) in
  search_similar_haikus client name embedding limit w =
    (pairs hits,
     match pairs hits with
     | Ok _ => found
     | Raise e =>
         set_log (fun l => l ++ [(ERROR, "Error searching Qdrant: " +:+ str_exn e)]) found
     end).
Proof.
  intros Hf Hs hits found.
  unfold search_similar_haikus, bind at 1, try_log, bind at 1, search, call, logger_info.
  cbn. fold req. rewrite Hf, Hs.
  unfold bind. cbn. rewrite comprehension_pairs. fold hits.
  by destruct (pairs hits) as [res|e'].
Qed.

End SearchSimilarHaikus.

(** ** A run without failure *)

Lemma store_in_qdrant_returns w client name haiku embedding point_id :
  (store_in_qdrant client name haiku embedding point_id w).1 = Ok tt →
  ∃ text,
    haiku = Some text ∧
    trace (store_in_qdrant client name haiku embedding point_id w).2 =
      trace w ++ [ReqUpsert name [mkPointStruct point_id embedding {["haiku" := text]}]].
Proof.
  unfold store_in_qdrant, bind, try_log, upsert, call, subscriptable, logger_info.
  destruct haiku as [text|]; [|done]. cbn.
  destruct (fault _ _ _); [done|]. destruct (store w !! name); [|done].
  intros _. by exists text.
Qed.

Lemma for_each_print_trace (similar : list (string * float)) w :
  trace (for_each (fun '(haiku, score) => print (ScoreLine score haiku)) similar w).2
  = trace w.
Proof.
  revert w. induction similar as [|[haiku score] rest IH]; intros w; [done|].
  cbn [for_each]. unfold bind, print at 1. cbv beta iota. by rewrite IH.
Qed.

(** When no step raises, the last two requests of [main] are the upsert of
    one point, of identifier 1, into "haikus" and a search of "haikus", with
    the default limit, for the very vector that point was stored with. *)
Lemma main_stores_then_searches w :
  first_failure w = None →
  ∃ earlier embedding text,
    trace (main w).2 =
      earlier ++
      [ReqUpsert "haikus" [mkPointStruct 1 embedding {["haiku" := text]}];
       ReqSearch "haikus" embedding default_limit].
Proof.
  unfold first_failure, main, with_span, bind, print, ret, open_span, close_span, printed.
  cbv beta.
  destruct (setup_environment _) as [[[[[key ep] h] p]|e1] w1]; cbv beta iota; [|done].
  destruct (configure_phoenix _ _) as [[[]|e2] w2]; cbv beta iota; [|done].
  destruct (setup_qdrant _ _ _) as [[[client name]|e3] w3] eqn:E3; cbv beta iota; [|done].
  assert (name = "haikus") as ->.
  { apply (setup_qdrant_returns w2 h p client). by rewrite E3. }
  destruct (generate_haiku _ _) as [[haiku|e4] w4]; cbv beta iota; [|done].
  destruct (generate_embedding _ _ _) as [[embedding|e5] w5]; cbv beta iota; [|done].
  destruct (store_in_qdrant _ _ _ _ _ _) as [[[]|e6] w6] eqn:E6; cbv beta iota; [|done].
  destruct (store_in_qdrant_returns w5 client "haikus" haiku embedding 1) as (text & _ & Hu).
  { by rewrite E6. }
  rewrite E6 in Hu. cbn [snd] in Hu.
  destruct (search_similar_haikus _ _ _ _ _) as [[similar|e7] w7] eqn:E7; cbv beta iota;
    [|done].
  intros _. exists (trace w5), embedding, text.
  pose proof (search_similar_haikus_trace
                (set_spans (fun l => l ++ [SpanStart "search-similar"])
                   (set_spans (fun l => l ++ [SpanEnd "generate-and-store"]) w6))
                client "haikus" embedding None) as Hs.
  rewrite E7 in Hs. cbn [snd] in Hs. cbn [trace set_spans] in Hs. rewrite Hu in Hs.
  match goal with
  | |- trace (let '(r, w') := let '(r0, w0') := ?run in _ in _).2 = _ =>
      assert (trace run.2 = trace w7) as Hp by (by rewrite for_each_print_trace);
      destruct run as [r8 w8]
  end.
  cbn in Hp |- *. by rewrite Hp, Hs, <- app_assoc.
Qed.

(** ** Components of the world a computation leaves alone *)

#[export] Instance spans_inert : Inert spans.
Proof. by split. Qed.

#[export] Instance stdout_inert : Inert stdout.
Proof. by split. Qed.

#[export] Instance svc_inert : Inert svc.
Proof. by split. Qed.

Section Keeps.

Context {X : Type} (f : world → X) `{!Inert f}.

Lemma keeps_ret {A} (a : A) : keeps f (ret a).
Proof. by intros w. Qed.

Lemma keeps_raise {A} e : keeps f (@raise A e).
Proof. by intros w. Qed.

Lemma keeps_bind {A B} (m : M A) (k : A → M B) :
  keeps f m → (∀ a, keeps f (k a)) → keeps f (bind m k).
Proof.
  intros Hm Hk w. unfold bind. specialize (Hm w).
  destruct (m w) as [[a|e] w1]; [|done]. cbn in Hm. by rewrite Hk.
Qed.

Lemma keeps_logger_info msg : keeps f (logger_info msg).
Proof. intros w. apply inert_log. Qed.

Lemma keeps_try_log {A} prefix (body : M A) : keeps f body → keeps f (try_log prefix body).
Proof.
  intros H w. unfold try_log. specialize (H w).
  destruct (body w) as [[a|e] w1]; [done|]. cbn in *. by rewrite inert_log.
Qed.

Lemma keeps_call {A} r (answer : M A) : keeps f answer → keeps f (call r answer).
Proof.
  intros H w. unfold call. destruct (fault _ _ _).
  - apply inert_trace.
  - rewrite H. apply inert_trace.
Qed.

Lemma keeps_first_item {A} (xs : list A) : keeps f (first_item xs).
Proof. by destruct xs. Qed.

Lemma keeps_getitem d k : keeps f (getitem d k).
Proof. unfold getitem. by destruct (d !! k). Qed.

Lemma keeps_subscriptable text : keeps f (subscriptable text).
Proof. by destruct text. Qed.


Lemma keeps_register project endpoint auto : keeps f (register project endpoint auto).
Proof. apply keeps_call, keeps_ret. Qed.

Lemma keeps_get_collections client : keeps f (get_collections client).
Proof. by apply keeps_call. Qed.

Lemma keeps_create_collection client name params :
  keeps f (create_collection client name params).
Proof.
  apply keeps_call. intros w. destruct (store w !! name); [done|]. apply inert_store.
Qed.

Lemma keeps_upsert client name pts : keeps f (upsert client name pts).
Proof.
  apply keeps_call. intros w. destruct (store w !! name); [|done]. apply inert_store.
Qed.

Lemma keeps_search client name query limit : keeps f (search client name query limit).
Proof. apply keeps_call. intros w. by destruct (store w !! name). Qed.

Lemma keeps_chat_completions_create client model messages :
  keeps f (chat_completions_create client model messages).
Proof. by apply keeps_call. Qed.

Lemma keeps_embeddings_create client model input :
  keeps f (embeddings_create client model input).
Proof. by apply keeps_call. Qed.

Ltac keeps_auto :=
  repeat lazymatch goal with
    | |- keeps _ (bind _ _) => apply keeps_bind; [|intros ?]
    | |- keeps _ (try_log _ _) => apply keeps_try_log
    | |- keeps _ (ret _) => apply keeps_ret
    | |- keeps _ (raise _) => apply keeps_raise
    | |- keeps _ (logger_info _) => apply keeps_logger_info
    | |- keeps _ (first_item _) => apply keeps_first_item
    | |- keeps _ (getitem _ _) => apply keeps_getitem
    | |- keeps _ (subscriptable _) => apply keeps_subscriptable
    | |- keeps _ (register _ _ _) => apply keeps_register
    | |- keeps _ (get_collections _) => apply keeps_get_collections
    | |- keeps _ (create_collection _ _ _) => apply keeps_create_collection
    | |- keeps _ (upsert _ _ _) => apply keeps_upsert
    | |- keeps _ (search _ _ _ _) => apply keeps_search
    | |- keeps _ (chat_completions_create _ _ _) => apply keeps_chat_completions_create
    | |- keeps _ (embeddings_create _ _ _) => apply keeps_embeddings_create
    end.

Lemma keeps_setup_environment : keeps f setup_environment.
Proof.
  unfold setup_environment.
  apply keeps_bind; [intros w; apply inert_environ|intros _].
  apply keeps_bind; [done|intros key].
  apply keeps_bind; [done|intros endpoint].
  apply keeps_bind; [done|intros h].
  apply keeps_bind; [done|intros p].
  destruct key as [[|c key]|]; keeps_auto.
Qed.

Lemma keeps_configure_phoenix endpoint : keeps f (configure_phoenix endpoint).
Proof. unfold configure_phoenix. keeps_auto. Qed.

Lemma keeps_setup_qdrant h p : keeps f (setup_qdrant h p).
Proof. unfold setup_qdrant. keeps_auto. case_decide; keeps_auto. Qed.

Lemma keeps_generate_haiku client : keeps f (generate_haiku client).
Proof. unfold generate_haiku. keeps_auto. Qed.

Lemma keeps_generate_embedding client text : keeps f (generate_embedding client text).
Proof. unfold generate_embedding. keeps_auto. Qed.



End Keeps.

Lemma keeps_run {A X} (f : world → X) (m : M A) w r w' :
  keeps f m → m w = (r, w') → f w' = f w.
Proof. intros H E. specialize (H w). by rewrite E in H. Qed.

(** ** The steps, one by one *)

Lemma setup_environment_returns w key endpoint h p :
  (setup_environment w).1 = Ok (key, endpoint, h, p) →
  effective_env w !! "OPENAI_API_KEY" = Some key ∧ key ≠ "" ∧
  endpoint = setting w "PHOENIX_COLLECTOR_ENDPOINT" "http://localhost:6006/v1/traces" ∧
  h = setting w "QDRANT_HOST" "localhost" ∧
  p = setting w "QDRANT_PORT" "6333".
Proof.
  destruct (effective_env w !! "OPENAI_API_KEY") as [k|] eqn:Hk.
  2:{ by rewrite (setup_environment_missing w Hk). }
  destruct (decide (k = "")) as [->|Hne].
  { by rewrite (setup_environment_empty w Hk). }
  rewrite (setup_environment_ok w k Hk Hne). by intros [= <- <- <- <-].
Qed.

Lemma setup_environment_store w : store (setup_environment w).2 = store w.
Proof.
  destruct (effective_env w !! "OPENAI_API_KEY") as [k|] eqn:Hk.
  2:{ by rewrite (setup_environment_missing w Hk). }
  destruct (decide (k = "")) as [->|Hne].
  { by rewrite (setup_environment_empty w Hk). }
  by rewrite (setup_environment_ok w k Hk Hne).
Qed.

Lemma try_log_raises {A} prefix (body : M A) w e :
  (try_log prefix body w).1 = Raise e →
  last (log (try_log prefix body w).2) = Some (ERROR, prefix +:+ str_exn e).
Proof.
  unfold try_log. destruct (body w) as [[a|e'] w1]; [done|].
  intros [= ->]. cbn [snd log set_log]. by rewrite last_snoc.
Qed.

Lemma logged_then_try_raises {A} msg prefix (body : M A) w e :
  (bind (logger_info msg) (fun _ => try_log prefix body) w).1 = Raise e →
  last (log (bind (logger_info msg) (fun _ => try_log prefix body) w).2)
  = Some (ERROR, prefix +:+ str_exn e).
Proof. unfold bind, logger_info. apply try_log_raises. Qed.

Section ConfigurePhoenix.

Variables (w : world) (endpoint : string).

Let req : request := ReqRegister "sample-llm-app" endpoint true.

Lemma configure_phoenix_trace : trace (configure_phoenix endpoint w).2 = trace w ++ [req].
Proof.
  unfold configure_phoenix, bind, try_log, register, call, logger_info.
  cbn. fold req. by destruct (fault _ _ _).
Qed.

Lemma configure_phoenix_result :
  (configure_phoenix endpoint w).1 =
    match fault (svc w) (trace w) req with
    | Some e => Raise e
    | None => Ok tt
    end.
Proof.
  unfold configure_phoenix, bind, try_log, register, call, logger_info.
  cbn. fold req. by destruct (fault _ _ _).
Qed.

Lemma configure_phoenix_store : store (configure_phoenix endpoint w).2 = store w.
Proof.
  unfold configure_phoenix, bind, try_log, register, call, logger_info.
  cbn. by destruct (fault _ _ _).
Qed.

End ConfigurePhoenix.

Section GenerateEmbedding.

Variables (w : world) (client : OpenAI) (text : string).

Let req : request := ReqEmbedding embedding_model text.

Lemma generate_embedding_trace :
  trace (generate_embedding client (Some text) w).2 = trace w ++ [req].
Proof.
  unfold generate_embedding, bind, try_log, embeddings_create, call, logger_info.
  cbn. fold embedding_model. fold req.
  destruct (fault _ _ _); [done|]. cbn. by destruct (embedding_data _ _ _).
Qed.

Lemma generate_embedding_result :
  (generate_embedding client (Some text) w).1 =
    match fault (svc w) (trace w) req with
    | Some e => Raise e
    | None =>
        match embedding_data (svc w) embedding_model text with
        | embedding :: _ => Ok embedding
        | [] => Raise (IndexError "list index out of range")
        end
    end.
Proof.
  unfold generate_embedding, bind, try_log, embeddings_create, call, logger_info.
  cbn. fold embedding_model. fold req.
  destruct (fault _ _ _); [done|]. cbn. by destruct (embedding_data _ _ _).
Qed.


End GenerateEmbedding.

Lemma generate_embedding_returns w client haiku embedding :
  (generate_embedding client haiku w).1 = Ok embedding →
  ∃ text, haiku = Some text.
Proof. destruct haiku as [text|]; [by exists text|done]. Qed.

Lemma store_in_qdrant_stored w client name haiku embedding point_id :
  (store_in_qdrant client name haiku embedding point_id w).1 = Ok tt →
  ∃ text c,
    haiku = Some text ∧ store w !! name = Some c ∧
    store (store_in_qdrant client name haiku embedding point_id w).2 =
      <[name := mkCollection (config c)
                  (<[point_id := (embedding, {["haiku" := text]})]> (points c))]> (store w).
Proof.
  unfold store_in_qdrant, bind, try_log, upsert, call, subscriptable, logger_info.
  destruct haiku as [text|]; [|done]. cbn.
  destruct (fault _ _ _); [done|]. destruct (store w !! name) as [c|]; [|done].
  intros _. by exists text, c.
Qed.

Lemma search_similar_haikus_store w client name embedding limit :
  store (search_similar_haikus client name embedding limit w).2 = store w.
Proof.
  destruct (fault (svc w) (trace w) (ReqSearch name embedding (default default_limit limit)))
    as [e|] eqn:Hf.
  { unfold search_similar_haikus, bind at 1, try_log, bind at 1, search, call, logger_info.
    cbn. by rewrite Hf. }
  destruct (store w !! name) as [c|] eqn:Hs.
  - rewrite (search_similar_haikus_run w client name embedding limit c Hf Hs).
    cbn. by destruct (pairs _).
  - unfold search_similar_haikus, bind at 1, try_log, bind at 1, search, call, logger_info.
    cbn. by rewrite Hf, Hs.
Qed.

Lemma setup_environment_trace w : trace (setup_environment w).2 = trace w.
Proof.
  destruct (effective_env w !! "OPENAI_API_KEY") as [k|] eqn:Hk.
  2:{ by rewrite (setup_environment_missing w Hk). }
  destruct (decide (k = "")) as [->|Hne].
  { by rewrite (setup_environment_empty w Hk). }
  by rewrite (setup_environment_ok w k Hk Hne).
Qed.

Lemma setup_qdrant_ok w h p r :
  (setup_qdrant h p w).1 = Ok r →
  trace (setup_qdrant h p w).2 =
    trace w ++ ReqGetCollections ::
      (if decide (store w !! "haikus" = None) then [creation_request] else []) ∧
  store (setup_qdrant h p w).2 =
    (if decide (store w !! "haikus" = None)
     then <["haikus" := haikus_collection]> (store w) else store w).
Proof.
  destruct (fault (svc w) (trace w) ReqGetCollections) as [e|] eqn:Hl.
  { by destruct (setup_qdrant_listing_fault w h p e Hl) as (-> & _). }
  destruct (store w !! "haikus") as [c|] eqn:Hs.
  { destruct (setup_qdrant_present w h p Hl) as (_ & -> & ->); [by exists c|].
    intros _. by rewrite decide_False. }
  destruct (fault (svc w) (trace w ++ [ReqGetCollections]) creation_request) as [e|] eqn:Hc.
  { by destruct (setup_qdrant_absent_fault w h p e Hl Hs Hc) as (-> & _). }
  destruct (setup_qdrant_absent_created w h p Hl Hs Hc) as (_ & -> & ->).
  intros _. rewrite decide_True by done. by rewrite <- app_assoc.
Qed.

Lemma generate_haiku_store w client : store (generate_haiku client w).2 = store w.
Proof.
  unfold generate_haiku, bind, try_log, chat_completions_create, call, logger_info.
  cbn. destruct (fault _ _ _); [done|]. cbn. by destruct (chat_choices _ _ _).
Qed.

Lemma generate_embedding_store w client haiku :
  store (generate_embedding client haiku w).2 = store w.
Proof.
  unfold generate_embedding, bind, try_log, embeddings_create, call, logger_info.
  destruct haiku as [text|]; [|done]. cbn.
  destruct (fault _ _ _); [done|]. cbn. by destruct (embedding_data _ _ _).
Qed.

Lemma for_each_print_store (similar : list (string * float)) w :
  store (for_each (fun '(haiku, score) => print (ScoreLine score haiku)) similar w).2
  = store w.
Proof.
  revert w. induction similar as [|[haiku score] rest IH]; intros w; [done|].
  cbn [for_each]. unfold bind, print at 1. cbv beta iota. by rewrite IH.
Qed.



(** The steps of a run of [main], with the equations of those that ran. *)
Ltac run_main :=
  unfold first_failure, main, with_span, bind, print, ret, open_span, close_span, printed;
  cbv beta;
  destruct (setup_environment _) as [[[[[key ep] h] p]|e1] w1] eqn:E1; cbv beta iota;
  [destruct (configure_phoenix _ _) as [[[]|e2] w2] eqn:E2; cbv beta iota;
   [destruct (setup_qdrant _ _ _) as [[[client name]|e3] w3] eqn:E3; cbv beta iota;
    [destruct (generate_haiku _ _) as [[haiku|e4] w4] eqn:E4; cbv beta iota;
     [destruct (generate_embedding _ _ _) as [[embedding|e5] w5] eqn:E5; cbv beta iota;
      [destruct (store_in_qdrant _ _ _ _ _ _) as [[[]|e6] w6] eqn:E6; cbv beta iota;
       [destruct (search_similar_haikus _ _ _ _ _) as [[similar|e7] w7] eqn:E7;
        cbv beta iota| ]| ]| ]| ]| ]| ].

Lemma run_eq {A} (m : M A) w r w' : m w = (r, w') → (m w).1 = r ∧ (m w).2 = w'.
Proof. by intros ->. Qed.

Lemma main_request_sequence_aux w :
  first_failure w = None →
  ∃ text embedding,
    (∃ rest, chat_choices (svc w) "gpt-4o" prompt = Some text :: rest) ∧
    (∃ rest, embedding_data (svc w) embedding_model text = embedding :: rest) ∧
    trace (main w).2 =
      trace w ++
      ([ReqRegister "sample-llm-app"
          (setting w "PHOENIX_COLLECTOR_ENDPOINT" "http://localhost:6006/v1/traces") true;
        ReqGetCollections] ++
       (if decide (store w !! "haikus" = None) then [creation_request] else []) ++
       [ReqChatCompletion "gpt-4o" prompt;
        ReqEmbedding embedding_model text;
        ReqUpsert "haikus" [mkPointStruct 1 embedding {["haiku" := text]}];
        ReqSearch "haikus" embedding 2]).
Proof.
  run_main; try done. intros _.
  (* environment *)
  destruct (run_eq _ _ _ _ E1) as [R1 W1].
  apply setup_environment_returns in R1 as (_ & _ & -> & _ & _).
  pose proof (setup_environment_trace (set_spans (fun l => l ++ [SpanStart "main"]) w)) as T1.
  pose proof (setup_environment_store (set_spans (fun l => l ++ [SpanStart "main"]) w)) as S1.
  pose proof (keeps_setup_environment svc (set_spans (fun l => l ++ [SpanStart "main"]) w)) as V1.
  rewrite W1 in T1, S1, V1. cbn in T1, S1, V1.
  (* tracer *)
  pose proof (configure_phoenix_trace w1
                (setting (set_spans (fun l => l ++ [SpanStart "main"]) w)
                   "PHOENIX_COLLECTOR_ENDPOINT" "http://localhost:6006/v1/traces")) as T2.
  pose proof (configure_phoenix_store w1
                (setting (set_spans (fun l => l ++ [SpanStart "main"]) w)
                   "PHOENIX_COLLECTOR_ENDPOINT" "http://localhost:6006/v1/traces")) as S2.
  pose proof (keeps_run svc _ _ _ _ (keeps_configure_phoenix svc _) E2) as V2.
  rewrite E2 in T2, S2. cbn [snd] in T2, S2.
  (* vector store *)
  destruct (run_eq _ _ _ _ E3) as [R3 W3].
  pose proof (setup_qdrant_returns _ _ _ _ _ R3) as (_ & -> & _).
  apply setup_qdrant_ok in R3 as [T3 S3]. rewrite W3 in T3, S3.
  pose proof (keeps_run svc _ _ _ _ (keeps_setup_qdrant svc _ _) E3) as V3.
  (* generation *)
  pose proof (generate_haiku_trace
                (set_spans (fun l => l ++ [SpanStart "generate-and-store"]) w3)
                {| api_key := key |}) as T4.
  pose proof (generate_haiku_result
                (set_spans (fun l => l ++ [SpanStart "generate-and-store"]) w3)
                {| api_key := key |}) as R4.
  pose proof (keeps_run svc _ _ _ _ (keeps_generate_haiku svc _) E4) as V4.
  rewrite E4 in T4, R4. cbn in T4, R4, V4.
  (* embedding *)
  destruct (run_eq _ _ _ _ E5) as [R5 W5].
  destruct (generate_embedding_returns _ _ _ _ R5) as [text ->].
  pose proof (generate_embedding_trace
                (set_stdout (fun l => l ++ [Line (default "None" (Some text))])
                   (set_stdout (fun l => l ++ [Line "Generated Haiku:"]) w4))
                {| api_key := key |} text) as T5.
  rewrite generate_embedding_result in R5.
  pose proof (keeps_run svc _ _ _ _ (keeps_generate_embedding svc _ _) E5) as V5.
  rewrite W5 in T5. cbn in T5, V5, R5.
  (* storage and search *)
  destruct (run_eq _ _ _ _ E6) as [R6 W6].
  apply store_in_qdrant_returns in R6 as (text' & [= <-] & T6). rewrite W6 in T6.
  pose proof (search_similar_haikus_trace
                (set_spans (fun l => l ++ [SpanStart "search-similar"])
                   (set_spans (fun l => l ++ [SpanEnd "generate-and-store"]) w6))
                client "haikus" embedding None) as T7.
  rewrite E7 in T7. cbn in T7.
  exists text, embedding.
  rewrite V3, V2, V1 in R4. rewrite V4, V3, V2, V1 in R5. unfold prompt.
  split; [|split].
  - destruct (fault _ _ (ReqChatCompletion _ _)); [done|].
    destruct (chat_choices _ _ _) as [|first rest]; [done|].
    injection R4 as <-. by exists rest.
  - destruct (fault _ _ (ReqEmbedding _ _)); [done|].
    destruct (embedding_data _ _ _) as [|first rest]; [done|].
    injection R5 as ->. by exists rest.
  - match goal with
    | |- trace (let '(r, w') := let '(r0, w0') := ?run in _ in _).2 = _ =>
        assert (trace run.2 = trace w7) as Hp by (by rewrite for_each_print_trace);
        destruct run as [r8 w8]
    end.
    cbn in Hp |- *. rewrite Hp, T7, T6, T5, T4, T3, T2, T1, S2, S1.
    unfold setting, effective_env. cbn.
    case_decide; by rewrite <- !app_assoc.
Qed.




Lemma store_at_generation w key ep h p w1 w2 r3 w3 :
  setup_environment (open_span "main" w) = (Ok (key, ep, h, p), w1) →
  configure_phoenix ep w1 = (Ok tt, w2) →
  setup_qdrant h p w2 = (Ok r3, w3) →
  store w3 !! "haikus" = Some (haikus_before w) ∧
  ∀ c, <["haikus" := c]> (store w3) = <["haikus" := c]> (store w).
Proof.
  intros E1 E2 E3.
  pose proof (setup_environment_store (open_span "main" w)) as S1.
  pose proof (configure_phoenix_store w1 ep) as S2.
  destruct (run_eq _ _ _ _ E3) as [R3 W3]. apply setup_qdrant_ok in R3 as [_ S3].
  rewrite E1 in S1. rewrite E2 in S2. rewrite W3 in S3. cbn in S1, S2.
  rewrite S2, S1 in S3. rewrite S3. unfold haikus_before.
  case_decide as Hd.
  - rewrite Hd, lookup_insert_eq. split; [done|]. intros c. by rewrite insert_insert_eq.
  - destruct (store w !! "haikus"); done.
Qed.

Lemma main_store_after_storage w :
  match first_failure w with
  | None => True
  | Some (st, _, _) => st = Search
  end →
  ∃ embedding text, store (main w).2 = <["haikus" := haikus_after w embedding text]> (store w).
Proof.
  run_main; try done; intros _.
  all: destruct (run_eq _ _ _ _ E3) as [R3 _];
    pose proof (setup_qdrant_returns _ _ _ _ _ R3) as (_ & -> & _); clear R3.
  all: destruct (store_at_generation _ _ _ _ _ _ _ _ _ E1 E2 E3) as [Hb Hins].
  all: pose proof (generate_haiku_store
                     (set_spans (fun l => l ++ [SpanStart "generate-and-store"]) w3)
                     {| api_key := key |}) as S4; rewrite E4 in S4; cbn in S4.
  all: pose proof (generate_embedding_store
                     (set_stdout (fun l => l ++ [Line (default "None" haiku)])
                        (set_stdout (fun l => l ++ [Line "Generated Haiku:"]) w4))
                     {| api_key := key |} haiku) as S5; rewrite E5 in S5; cbn in S5.
  all: destruct (run_eq _ _ _ _ E6) as [R6 W6];
    apply store_in_qdrant_stored in R6 as (text & c & -> & Hc & S6); rewrite W6 in S6;
    rewrite S5, S4, Hb in Hc; injection Hc as <-; rewrite S5, S4, Hins in S6.
  all: pose proof (search_similar_haikus_store
                     (set_spans (fun l => l ++ [SpanStart "search-similar"])
                        (set_spans (fun l => l ++ [SpanEnd "generate-and-store"]) w6))
                     client "haikus" embedding None) as S7; rewrite E7 in S7; cbn in S7.
  all: exists embedding, text.
  - match goal with
    | |- store (let '(r, w') := let '(r0, w0') := ?run in _ in _).2 = _ =>
        assert (store run.2 = store w7) as Hp by (by rewrite for_each_print_store);
        destruct run as [r8 w8]
    end.
    cbn in Hp |- *. by rewrite Hp, S7, S6.
  - cbn. by rewrite S7, S6.
Qed.

Lemma setup_qdrant_store_cases w h p :
  store (setup_qdrant h p w).2 = store w ∨
  (store w !! "haikus" = None ∧
   store (setup_qdrant h p w).2 = <["haikus" := haikus_collection]> (store w)).
Proof.
  destruct (fault (svc w) (trace w) ReqGetCollections) as [e|] eqn:Hl.
  { left. by destruct (setup_qdrant_listing_fault w h p e Hl) as (_ & _ & ->). }
  destruct (store w !! "haikus") as [c|] eqn:Hs.
  { left. destruct (setup_qdrant_present w h p Hl) as (_ & _ & ->); [by exists c|done]. }
  destruct (fault (svc w) (trace w ++ [ReqGetCollections]) creation_request) as [e|] eqn:Hc.
  { left. by destruct (setup_qdrant_absent_fault w h p e Hl Hs Hc) as (_ & _ & ->). }
  right. split; [done|].
  by destruct (setup_qdrant_absent_created w h p Hl Hs Hc) as (_ & _ & ->).
Qed.

Lemma store_in_qdrant_raise_store w client name haiku embedding point_id e :
  (store_in_qdrant client name haiku embedding point_id w).1 = Raise e →
  store (store_in_qdrant client name haiku embedding point_id w).2 = store w.
Proof.
  unfold store_in_qdrant, bind, try_log, upsert, call, subscriptable, logger_info.
  destruct haiku as [text|]; [|done]. cbn.
  destruct (fault _ _ _); [done|]. by destruct (store w !! name).
Qed.

(** * The claims *)

(** C8: when a key is configured, [setup_environment] returns it with the
    tracing endpoint, the vector-store host and the vector-store port, each
    being the default ("http://localhost:6006/v1/traces", "localhost",
    "6333") when its variable is unset and the variable's value, unchanged
    and unvalidated, when it is set. *)
Theorem setup_environment_defaults (w : world) (key : string) :
  effective_env w !! "OPENAI_API_KEY" = Some key → key ≠ "" →
  (setup_environment w).1 =
    Ok (key,
        setting w "PHOENIX_COLLECTOR_ENDPOINT" "http://localhost:6006/v1/traces",
        setting w "QDRANT_HOST" "localhost",
        setting w "QDRANT_PORT" "6333") ∧
  (∀ var dflt, effective_env w !! var = None → setting w var dflt = dflt) ∧
  (∀ var dflt v, effective_env w !! var = Some v → setting w var dflt = v).
Proof.
  intros Hkey Hne. split; [|split].
  - by rewrite (setup_environment_ok w key Hkey Hne).
  - intros var dflt H. unfold setting. by rewrite H.
  - intros var dflt v H. unfold setting. by rewrite H.
Qed.

Lemma setup_environment_defaults_witness :
  (setup_environment sample_world).1 =
    Ok ("sk-test", "http://localhost:6006/v1/traces", "qdrant.internal", "6333").
Proof.
  destruct (setup_environment_defaults sample_world "sk-test") as [H _].
  - vm_compute. reflexivity.
  - discriminate.
  - rewrite H. vm_compute. reflexivity.
Defined.

(** C9: an empty OPENAI_API_KEY is treated like an absent one:
    [setup_environment] raises the same configuration error in both cases. *)
Theorem empty_api_key_is_missing (w w' : world) :
  effective_env w !! "OPENAI_API_KEY" = Some "" →
  effective_env w' !! "OPENAI_API_KEY" = None →
  (setup_environment w).1 = Raise missing_key_error ∧
  (setup_environment w).1 = (setup_environment w').1.
Proof.
  intros Hempty Hnone.
  rewrite (setup_environment_empty w Hempty), (setup_environment_missing w' Hnone).
  done.
Qed.

Lemma empty_api_key_is_missing_witness :
  (setup_environment (set_environ (insert "OPENAI_API_KEY" "") sample_world)).1
  = Raise missing_key_error.
Proof.
  apply (empty_api_key_is_missing
           (set_environ (insert "OPENAI_API_KEY" "") sample_world)
           (set_environ (delete "OPENAI_API_KEY") sample_world));
    vm_compute; reflexivity.
Defined.



(** C2: when a step of [main] raises (the first one to do so, [st], raising
    [e] and leaving the world [wf]), [main] raises that same exception and
    ends in [wf] but for the spans it closes: no further request, log line,
    output or change of the store.  The requests of the run are those of the
    steps up to [st]; in particular a failed generation leaves no embedding,
    storage or search request. *)
Theorem main_error_propagates (w : world) (st : stage) (e : exn) (wf : world) :
  first_failure w = Some (st, e, wf) →
  (main w).1 = Raise e ∧
  same_effects wf (main w).2 ∧
  Forall (upto st) (requests_since w (main w).2) ∧
  (st = Generation →
   Forall (fun r => request_stage r ≠ Embedding ∧ request_stage r ≠ Storage ∧
                    request_stage r ≠ Search)
     (requests_since w (main w).2)).
Proof.
  intros H. destruct (main_first_failure w st e wf H) as [Hr Hsame].
  assert (Forall (upto st) (requests_since w (main w).2)) as Hreq.
  { destruct Hsame as (_ & _ & Ht & _). unfold requests_since. rewrite Ht.
    by apply extends_requests_since, first_failure_extends with e. }
  repeat split; try done; try apply Hsame.
  intros ->. eapply Forall_impl; [exact Hreq|].
  intros r Hu. unfold upto in Hu. cbn in Hu.
  repeat split; intros Heq; rewrite Heq in Hu; cbn in Hu; lia.
Qed.

Lemma main_error_propagates_witness :
  (main generation_outage).1 = Raise (ServiceError "rate limit exceeded") ∧
  Forall (upto Generation) (requests_since generation_outage (main generation_outage).2).
Proof.
  destruct (main_error_propagates generation_outage Generation
              (ServiceError "rate limit exceeded")
              (match first_failure generation_outage with
               | Some (_, _, wf) => wf
               | None => generation_outage
               end)) as (H1 & _ & H2 & _).
  - vm_compute. reflexivity.
  - split; [exact H1|exact H2].
Defined.

(** C4: when OPENAI_API_KEY is neither in the process environment nor in the
    .env file, [setup_environment] raises the configuration error, and so does
    [main], without any request having been sent (no tracer registration, no
    vector-store or language-model call) and with the store untouched. *)
Theorem missing_api_key_fails_before_any_request (w : world) :
  environ w !! "OPENAI_API_KEY" = None →
  dotenv w !! "OPENAI_API_KEY" = None →
  (setup_environment w).1 = Raise missing_key_error ∧
  (main w).1 = Raise missing_key_error ∧
  requests_since w (main w).2 = [] ∧
  store (main w).2 = store w.
Proof.
  intros He Hd.
  assert (effective_env w !! "OPENAI_API_KEY" = None) as Hnone
    by by apply effective_env_None.
  split; [by rewrite (setup_environment_missing w Hnone)|].
  assert (first_failure w =
            Some (Environment, missing_key_error,
                  set_environ (fun e => e ∪ dotenv w) (open_span "main" w))) as Hf.
  { unfold first_failure.
    by rewrite (setup_environment_missing (open_span "main" w) Hnone). }
  destruct (main_first_failure _ _ _ _ Hf) as (Hr & _ & Hs & Ht & _).
  split; [done|]. split; [|by rewrite Hs].
  by apply requests_since_same.
Qed.

Lemma missing_api_key_fails_before_any_request_witness :
  (main (set_environ (delete "OPENAI_API_KEY") sample_world)).1 = Raise missing_key_error ∧
  requests_since (set_environ (delete "OPENAI_API_KEY") sample_world)
    (main (set_environ (delete "OPENAI_API_KEY") sample_world)).2 = [].
Proof.
  destruct (missing_api_key_fails_before_any_request
              (set_environ (delete "OPENAI_API_KEY") sample_world))
    as (_ & H1 & H2 & _).
  - vm_compute. reflexivity.
  - vm_compute. reflexivity.
  - split; [exact H1|exact H2].
Defined.





(** C7: [generate_haiku] sends exactly one request, a chat completion whose
    only message is the user message "Write a haiku about the ocean."; it
    returns a value exactly when the request is accepted and the response has
    a first choice, and the value is the content of that choice. *)
Theorem generate_haiku_request_and_result (w : world) (client : OpenAI) :
  requests_since w (generate_haiku client w).2 =
    [ReqChatCompletion "gpt-4o" [mkMessage "user" "Write a haiku about the ocean."]] ∧
  (∀ haiku,
     (generate_haiku client w).1 = Ok haiku ↔
     fault (svc w) (trace w)
       (ReqChatCompletion "gpt-4o" [mkMessage "user" "Write a haiku about the ocean."])
       = None ∧
     ∃ rest,
       chat_choices (svc w) "gpt-4o" [mkMessage "user" "Write a haiku about the ocean."]
       = haiku :: rest).
Proof.
  split; [apply requests_since_app, generate_haiku_trace|].
  intros haiku. rewrite generate_haiku_result.
  destruct (fault _ _ _) as [e|].
  { split; [done|]. by intros [? _]. }
  destruct (chat_choices _ _ _) as [|first rest].
  { split; [done|]. by intros [_ [? ?]]. }
  split.
  - intros [= ->]. eauto.
  - by intros [_ [rest' [= -> _]]].
Qed.

(** C10: when the request is accepted and some hit of the answer has no
    "haiku" key in its payload, [search_similar_haikus] raises
    [KeyError("haiku")] instead of returning pairs; the exception passes
    through the function's handler, which logs it and raises it again. *)
Theorem search_similar_haikus_missing_key (w : world) (client : QdrantClient)
    (name : string) (embedding : list float) (limit : option Z) (c : collection) :
  fault (svc w) (trace w) (ReqSearch name embedding (default 2%Z limit)) = None →
  store w !! name = Some c →
  Exists (fun hit => hit_payload hit !! "haiku" = None)
    (ranker (svc w) c embedding (default 2%Z limit)) →
  (search_similar_haikus client name embedding limit w).1 = Raise (KeyError "haiku") ∧
  last (log (search_similar_haikus client name embedding limit w).2) =
    Some (ERROR, "Error searching Qdrant: 'haiku'").
Proof.
  intros Hf Hs Hex.
  rewrite (search_similar_haikus_run w client name embedding limit c Hf Hs).
  apply pairs_missing in Hex. unfold default_limit. rewrite Hex.
  split; [done|]. cbn [snd log set_log]. by rewrite last_snoc.
Qed.

Lemma search_similar_haikus_missing_key_witness :
  (search_similar_haikus (mkQdrantClient "localhost" "6333") "haikus"
     [0.5%float; 0.5%float] None untitled_world).1 = Raise (KeyError "haiku").
Proof.
  destruct (search_similar_haikus_missing_key untitled_world
              (mkQdrantClient "localhost" "6333") "haikus" [0.5%float; 0.5%float] None
              (mkCollection (mkVectorParams 1536 COSINE)
                 {[7%Z := ([0.5%float; 0.5%float],
                           {["haiku" := "Salt wind, grey morning"]})]}))
    as [H _].
  - vm_compute. reflexivity.
  - vm_compute. reflexivity.
  - apply Exists_cons_tl, Exists_cons_hd. vm_compute. reflexivity.
  - exact H.
Defined.

(** * Further properties of the script *)

(** X1: [configure_phoenix] sends exactly one request, the registration of
    the project "sample-llm-app" at the given endpoint with automatic
    instrumentation on; it returns when the registration is accepted and
    raises the service's exception otherwise. *)
Theorem configure_phoenix_registers_once (w : world) (endpoint : string) :
  requests_since w (configure_phoenix endpoint w).2 =
    [ReqRegister "sample-llm-app" endpoint true] ∧
  ((configure_phoenix endpoint w).1 = Ok tt ↔
   fault (svc w) (trace w) (ReqRegister "sample-llm-app" endpoint true) = None) ∧
  (∀ e, (configure_phoenix endpoint w).1 = Raise e ↔
        fault (svc w) (trace w) (ReqRegister "sample-llm-app" endpoint true) = Some e).
Proof.
  split; [apply requests_since_app, configure_phoenix_trace|].
  rewrite configure_phoenix_result.
  destruct (fault _ _ _) as [e'|]; split; try done.
  - intros e. split; by intros [= ->].
Qed.


(** X3: every function with a [try] block logs the exception it raises
    again: when it raises [e], the last line of the log is the error line
    made of the function's own prefix and [str(e)]. *)
Theorem reraised_errors_are_logged (w : world) (e : exn) :
  (∀ endpoint,
     (configure_phoenix endpoint w).1 = Raise e →
     last (log (configure_phoenix endpoint w).2) =
       Some (ERROR, "Failed to configure Phoenix tracer: " +:+ str_exn e)) ∧
  (∀ h p,
     (setup_qdrant h p w).1 = Raise e →
     last (log (setup_qdrant h p w).2) =
       Some (ERROR, "Failed to set up Qdrant: " +:+ str_exn e)) ∧
  (∀ client,
     (generate_haiku client w).1 = Raise e →
     last (log (generate_haiku client w).2) =
       Some (ERROR, "Error generating haiku: " +:+ str_exn e)) ∧
  (∀ client text,
     (generate_embedding client (Some text) w).1 = Raise e →
     last (log (generate_embedding client (Some text) w).2) =
       Some (ERROR, "Error generating embedding: " +:+ str_exn e)) ∧
  (∀ client name text embedding point_id,
     (store_in_qdrant client name (Some text) embedding point_id w).1 = Raise e →
     last (log (store_in_qdrant client name (Some text) embedding point_id w).2) =
       Some (ERROR, "Error storing in Qdrant: " +:+ str_exn e)) ∧
  (∀ client name embedding limit,
     (search_similar_haikus client name embedding limit w).1 = Raise e →
     last (log (search_similar_haikus client name embedding limit w).2) =
       Some (ERROR, "Error searching Qdrant: " +:+ str_exn e)).
Proof.
  repeat split; intros; by apply logged_then_try_raises.
Qed.

Lemma reraised_errors_are_logged_witness :
  last (log (generate_haiku (mkOpenAI "sk-test") generation_outage).2) =
    Some (ERROR, "Error generating haiku: rate limit exceeded").
Proof.
  destruct (reraised_errors_are_logged generation_outage
              (ServiceError "rate limit exceeded")) as (_ & _ & H & _).
  apply (H (mkOpenAI "sk-test")). vm_compute. reflexivity.
Defined.

(** X4: [setup_environment] raises exactly when OPENAI_API_KEY is absent or
    empty once the .env file is loaded, and then it raises the configuration
    error; that error is not logged and no request is sent, whatever the
    outcome. *)
Theorem setup_environment_fails_iff (w : world) :
  (∀ e, (setup_environment w).1 = Raise e ↔
        e = missing_key_error ∧
        (effective_env w !! "OPENAI_API_KEY" = None ∨
         effective_env w !! "OPENAI_API_KEY" = Some "")) ∧
  (∀ e, (setup_environment w).1 = Raise e → log (setup_environment w).2 = log w) ∧
  requests_since w (setup_environment w).2 = [] ∧
  store (setup_environment w).2 = store w.
Proof.
  split; [|split; [|split]].
  - intros e. destruct (effective_env w !! "OPENAI_API_KEY") as [k|] eqn:Hk.
    2:{ rewrite (setup_environment_missing w Hk). cbn. split; [intros [= <-]|intros [-> _]]; eauto. }
    destruct (decide (k = "")) as [->|Hne].
    { rewrite (setup_environment_empty w Hk). cbn.
      split; [intros [= <-]|intros [-> _]]; eauto. }
    rewrite (setup_environment_ok w k Hk Hne). cbn. split; [done|].
    intros [_ [?|[= ?]]]; done.
  - intros e. destruct (effective_env w !! "OPENAI_API_KEY") as [k|] eqn:Hk.
    2:{ by rewrite (setup_environment_missing w Hk). }
    destruct (decide (k = "")) as [->|Hne].
    { by rewrite (setup_environment_empty w Hk). }
    by rewrite (setup_environment_ok w k Hk Hne).
  - apply requests_since_same, setup_environment_trace.
  - apply setup_environment_store.
Qed.

(** X5: [search_similar_haikus] sends exactly one request, whether it
    returns or raises: a search of the given collection for the given vector
    with the given limit, 2 when none is given; it never changes the store. *)
Theorem search_similar_haikus_request (w : world) (client : QdrantClient)
    (name : string) (embedding : list float) :
  (∀ limit,
     requests_since w (search_similar_haikus client name embedding (Some limit) w).2 =
       [ReqSearch name embedding limit]) ∧
  requests_since w (search_similar_haikus client name embedding None w).2 =
    [ReqSearch name embedding 2] ∧
  (∀ limit, store (search_similar_haikus client name embedding limit w).2 = store w).
Proof.
  split; [|split].
  - intros limit. apply requests_since_app, search_similar_haikus_trace.
  - apply requests_since_app, search_similar_haikus_trace.
  - intros limit. apply search_similar_haikus_store.
Qed.

(** X6: an accepted request whose response is empty makes the function
    raise IndexError: [generate_haiku] when the completion has no choice,
    [generate_embedding] when the embedding response has no entry. *)
Theorem empty_response_raises_index_error (w : world) (client : OpenAI) :
  (fault (svc w) (trace w) (ReqChatCompletion "gpt-4o" prompt) = None →
   chat_choices (svc w) "gpt-4o" prompt = [] →
   (generate_haiku client w).1 = Raise (IndexError "list index out of range")) ∧
  (∀ text,
     fault (svc w) (trace w) (ReqEmbedding embedding_model text) = None →
     embedding_data (svc w) embedding_model text = [] →
     (generate_embedding client (Some text) w).1 =
       Raise (IndexError "list index out of range")).
Proof.
  split.
  - intros Hf Hc. rewrite generate_haiku_result. fold prompt. by rewrite Hf, Hc.
  - intros text Hf Hd. rewrite generate_embedding_result. by rewrite Hf, Hd.
Qed.

Lemma empty_response_raises_index_error_witness :
  (generate_haiku (mkOpenAI "sk-test") empty_replies).1 =
    Raise (IndexError "list index out of range") ∧
  (generate_embedding (mkOpenAI "sk-test") (Some "Waves fold into foam") empty_replies).1 =
    Raise (IndexError "list index out of range").
Proof.
  destruct (empty_response_raises_index_error empty_replies (mkOpenAI "sk-test"))
    as [H1 H2].
  split.
  - apply H1; vm_compute; reflexivity.
  - apply H2; vm_compute; reflexivity.
Defined.

(** X7: [main] returns exactly when none of its seven steps raises, and it
    raises [e] exactly when the first step to raise raises [e]: the entry
    point adds no failure of its own and hides none. *)
Theorem main_returns_iff_no_step_raises (w : world) :
  ((main w).1 = Ok tt ↔ first_failure w = None) ∧
  (∀ e, (main w).1 = Raise e ↔ ∃ st wf, first_failure w = Some (st, e, wf)).
Proof.
  destruct (first_failure w) as [[[st e'] wf]|] eqn:H.
  - destruct (main_first_failure w st e' wf H) as [Hr _]. rewrite Hr. split.
    + split; done.
    + intros e. split.
      * intros [= ->]. by exists st, wf.
      * by intros (st' & wf' & [= _ -> _]).
  - rewrite (main_no_failure w H). split; [done|].
    intros e. split; [done|]. by intros (st' & wf' & ?).
Qed.

(** X8: a run of [main] in which no step raises sends, in this order: the
    tracer registration at the configured endpoint, the collection listing,
    the creation of "haikus" if and only if it was absent, the completion
    request, the embedding request for the generated text, the upsert into
    "haikus" of the point 1 made of that text and of its embedding, and the
    search of "haikus" for that same embedding with limit 2.  The text is
    the content of the first choice and the embedding the first entry of the
    embedding response. *)
Theorem main_request_sequence (w : world) :
  first_failure w = None →
  ∃ text embedding,
    (∃ rest, chat_choices (svc w) "gpt-4o" prompt = Some text :: rest) ∧
    (∃ rest, embedding_data (svc w) embedding_model text = embedding :: rest) ∧
    requests_since w (main w).2 =
      [ReqRegister "sample-llm-app"
         (setting w "PHOENIX_COLLECTOR_ENDPOINT" "http://localhost:6006/v1/traces") true;
       ReqGetCollections] ++
      (if decide (store w !! "haikus" = None) then [creation_request] else []) ++
      [ReqChatCompletion "gpt-4o" prompt;
       ReqEmbedding embedding_model text;
       ReqUpsert "haikus" [mkPointStruct 1 embedding {["haiku" := text]}];
       ReqSearch "haikus" embedding 2].
Proof.
  intros H. destruct (main_request_sequence_aux w H) as (text & embedding & H1 & H2 & H3).
  exists text, embedding. split; [done|]. split; [done|].
  by apply requests_since_app.
Qed.

Lemma main_request_sequence_witness :
  ∃ text embedding,
    requests_since stocked_world (main stocked_world).2 =
      [ReqRegister "sample-llm-app" "http://localhost:6006/v1/traces" true;
       ReqGetCollections;
       ReqChatCompletion "gpt-4o" prompt;
       ReqEmbedding embedding_model text;
       ReqUpsert "haikus" [mkPointStruct 1 embedding {["haiku" := text]}];
       ReqSearch "haikus" embedding 2].
Proof.
  destruct (main_request_sequence stocked_world) as (text & embedding & _ & _ & H).
  - vm_compute. reflexivity.
  - exists text, embedding. exact H.
Defined.



(** X11: once the storage step has returned (no step raises, or only the
    search does), the whole effect of [main] on the store is that the
    collection "haikus", the existing one or else a new empty one of size
    1536 and cosine distance, holds the generated point under the identifier
    1: its other points, its parameters and the other collections are as
    before, and a failing search does not undo the write. *)
Theorem main_store_effect (w : world) :
  first_failure w = None ∨ (∃ e wf, first_failure w = Some (Search, e, wf)) →
  ∃ embedding text,
    store (main w).2 = <["haikus" := haikus_after w embedding text]> (store w) ∧
    points (haikus_after w embedding text) !! 1%Z = Some (embedding, {["haiku" := text]}) ∧
    (∀ other, other ≠ 1%Z →
       points (haikus_after w embedding text) !! other = points (haikus_before w) !! other) ∧
    config (haikus_after w embedding text) = config (haikus_before w).
Proof.
  intros H. destruct (main_store_after_storage w) as (embedding & text & Hs).
  { destruct H as [H|(e & wf & H)]; by rewrite H. }
  exists embedding, text. split; [done|]. unfold haikus_after. cbn.
  split; [by rewrite lookup_insert_eq|]. split; [|done].
  intros other Hne. by rewrite lookup_insert_ne.
Qed.

Lemma main_store_effect_witness :
  ∃ embedding text,
    store (main search_outage).2 =
      <["haikus" := haikus_after search_outage embedding text]> (store search_outage).
Proof.
  destruct (main_store_effect search_outage) as (embedding & text & H & _).
  - right. exists (ServiceError "timed out").
    exists (match first_failure search_outage with
            | Some (_, _, wf) => wf
            | None => search_outage
            end).
    vm_compute. reflexivity.
  - exists embedding, text. exact H.
Defined.

(** X12: the identifier 1 is fixed, so runs do not accumulate points: when
    a run in which no step raises is followed by another one, the second
    overwrites the point 1 of "haikus" and leaves the identifiers held by
    the collection, its parameters and every other collection as the first
    run left them. *)
Theorem main_rerun_overwrites (w : world) :
  first_failure w = None →
  first_failure (main w).2 = None →
  ∃ c c',
    store (main w).2 !! "haikus" = Some c ∧
    store (main (main w).2).2 !! "haikus" = Some c' ∧
    dom (points c') = dom (points c) ∧
    config c' = config c ∧
    ∀ other, other ≠ "haikus" →
      store (main (main w).2).2 !! other = store (main w).2 !! other.
Proof.
  intros H1 H2.
  destruct (main_store_after_storage w) as (v1 & t1 & S1); [by rewrite H1|].
  destruct (main_store_after_storage (main w).2) as (v2 & t2 & S2); [by rewrite H2|].
  exists (haikus_after w v1 t1), (haikus_after (main w).2 v2 t2).
  assert (haikus_before (main w).2 = haikus_after w v1 t1) as Hb.
  { unfold haikus_before at 1. by rewrite S1, lookup_insert_eq. }
  split; [by rewrite S1, lookup_insert_eq|].
  split; [by rewrite S2, lookup_insert_eq|].
  unfold haikus_after at 1 3. rewrite Hb. cbn.
  split; [|split; [done|]].
  - apply dom_insert_lookup_L. unfold haikus_after. cbn. rewrite lookup_insert_eq. by eexists.
  - intros other Hne. by rewrite S2, lookup_insert_ne.
Qed.

Lemma main_rerun_overwrites_witness :
  ∃ c c',
    store (main sample_world).2 !! "haikus" = Some c ∧
    store (main (main sample_world).2).2 !! "haikus" = Some c' ∧
    dom (points c') = dom (points c).
Proof.
  destruct (main_rerun_overwrites sample_world) as (c & c' & H1 & H2 & H3 & _).
  - vm_compute. reflexivity.
  - vm_compute. reflexivity.
  - exists c, c'. split; [exact H1|]. split; [exact H2|exact H3].
Defined.



(** X14: a run of [main] that fails at the storage step or earlier writes
    no point: its store is the initial one, or the initial one with the new,
    empty collection "haikus" when that collection was absent. *)
Theorem main_failure_before_search_writes_no_point (w : world) (st : stage) (e : exn)
    (wf : world) :
  first_failure w = Some (st, e, wf) →
  (stage_index st ≤ 5)%nat →
  store (main w).2 = store w ∨
  (store w !! "haikus" = None ∧
   store (main w).2 = <["haikus" := haikus_collection]> (store w)).
Proof.
  intros H Hst. destruct (main_first_failure w _ _ _ H) as [_ (_ & -> & _)].
  revert H. unfold first_failure.
  destruct (setup_environment _) as [[[[[key ep] h] p]|e1] w1] eqn:E1.
  all: pose proof (setup_environment_store (open_span "main" w)) as S1;
    rewrite E1 in S1; cbn in S1.
  2:{ intros [= <- <- <-]. by left. }
  destruct (configure_phoenix _ _) as [[[]|e2] w2] eqn:E2.
  all: pose proof (configure_phoenix_store w1 ep) as S2; rewrite E2 in S2; cbn in S2.
  2:{ intros [= <- <- <-]. left. by rewrite S2. }
  destruct (setup_qdrant _ _ _) as [[[client name]|e3] w3] eqn:E3.
  all: pose proof (setup_qdrant_store_cases w2 h p) as S3; rewrite E3 in S3; cbn in S3;
    rewrite S2, S1 in S3.
  2:{ by intros [= <- <- <-]. }
  destruct (generate_haiku _ _) as [[haiku|e4] w4] eqn:E4.
  all: pose proof (generate_haiku_store (open_span "generate-and-store" w3)
                     (mkOpenAI key)) as S4; rewrite E4 in S4; cbn in S4.
  2:{ intros [= <- <- <-]. by rewrite S4. }
  destruct (generate_embedding _ _ _) as [[embedding|e5] w5] eqn:E5.
  all: pose proof (generate_embedding_store
                     (printed (Line (default "None" haiku))
                        (printed (Line "Generated Haiku:") w4))
                     (mkOpenAI key) haiku) as S5; rewrite E5 in S5; cbn in S5.
  2:{ intros [= <- <- <-]. by rewrite S5, S4. }
  destruct (store_in_qdrant _ _ _ _ _ _) as [[[]|e6] w6] eqn:E6.
  2:{ pose proof (store_in_qdrant_raise_store w5 client name haiku embedding 1 e6) as S6.
      rewrite E6 in S6. cbn in S6. specialize (S6 eq_refl).
      intros [= <- <- <-]. by rewrite S6, S5, S4. }
  destruct (search_similar_haikus _ _ _ _ _) as [[similar|e7] w7]; [done|].
  intros [= <- <- <-]. cbn in Hst. lia.
Qed.

Lemma main_failure_before_search_writes_no_point_witness :
  store (main generation_outage).2 =
    <["haikus" := haikus_collection]> (store generation_outage).
Proof.
  destruct (main_failure_before_search_writes_no_point generation_outage Generation
              (ServiceError "rate limit exceeded")
              (match first_failure generation_outage with
               | Some (_, _, wf) => wf
               | None => generation_outage
               end)) as [H|[_ H]].
  - vm_compute. reflexivity.
  - vm_compute. lia.
  - exfalso. revert H. vm_compute. discriminate.
  - exact H.
Defined.
